(** * passwordservice: the hashing engine of [main.go], embedded and verified

    The development follows [main.go] top-down:

    - [Sha512] and [Base64] embed the two standard-library primitives the
      service calls ([crypto/sha512] and [encoding/base64]);
    - [PasswordManager] is the struct of the same name together with its
      methods, one Rocq function per critical section;
    - [World] adds the goroutines started by [Hash] that have not yet run
      their critical section, and [step] interleaves them with the calls of
      the interface;
    - [PasswordManagerHandler] is the HTTP adapter.

    Go's [int64], [int] (taken as 64 bits wide, as on every 64-bit target)
    and [time.Duration] are [Z] with the two's-complement wrap-around written
    out ([wrap64]).  A Go byte slice is [option (list byte)]: [None] is the
    [nil] slice, which Go distinguishes from an empty one. *)

From Stdlib Require Import String Ascii DecimalString DecimalPos.
From Stdlib.Strings Require Import Byte.
From Stdlib Require Import ZArith Lia List.
From stdpp Require Import gmap list fin_maps.
Import ListNotations.

#[local] Open Scope Z_scope.

(** ** Machine integers *)

Definition wrap64 (z : Z) : Z := (z + 2 ^ 63) mod 2 ^ 64 - 2 ^ 63.

Definition max_int64 : Z := 2 ^ 63 - 1.
Definition min_int64 : Z := - 2 ^ 63.

Definition Z_of_byte (b : byte) : Z := Z.of_N (Byte.to_N b).

Definition byte_of_Z (z : Z) : byte :=
  match Byte.of_N (Z.to_N (z mod 256)) with
  | Some b => b
  | None => x00
  end.

(** A Go [[]byte]: [None] is [nil]. *)
Abbreviation slice := (option (list byte)).

(** ** crypto/sha512 *)

Module Sha512.

Definition u64 (z : Z) : Z := z mod 2 ^ 64.

Definition add64 (x y : Z) : Z := u64 (x + y).

(** [bits.RotateLeft64(x, -k)] *)
Definition rotr (x k : Z) : Z :=
  u64 (Z.lor (Z.shiftr x k) (Z.shiftl x (64 - k))).

Definition not64 (x : Z) : Z := u64 (Z.lnot x).

(** [chunk] *)
Definition chunk : nat := 128.

Record digest : Type := Digest {
  h0 : Z; h1 : Z; h2 : Z; h3 : Z; h4 : Z; h5 : Z; h6 : Z; h7 : Z
}.

(** [init0 .. init7] *)
Definition init : digest :=
  Digest 0x6a09e667f3bcc908 0xbb67ae8584caa73b
         0x3c6ef372fe94f82b 0xa54ff53a5f1d36f1
         0x510e527fade682d1 0x9b05688c2b3e6c1f
         0x1f83d9abfb41bd6b 0x5be0cd19137e2179.

(** [_K] *)
Definition K : list Z :=
  [ 0x428a2f98d728ae22; 0x7137449123ef65cd; 0xb5c0fbcfec4d3b2f; 0xe9b5dba58189dbbc;
    0x3956c25bf348b538; 0x59f111f1b605d019; 0x923f82a4af194f9b; 0xab1c5ed5da6d8118;
    0xd807aa98a3030242; 0x12835b0145706fbe; 0x243185be4ee4b28c; 0x550c7dc3d5ffb4e2;
    0x72be5d74f27b896f; 0x80deb1fe3b1696b1; 0x9bdc06a725c71235; 0xc19bf174cf692694;
    0xe49b69c19ef14ad2; 0xefbe4786384f25e3; 0x0fc19dc68b8cd5b5; 0x240ca1cc77ac9c65;
    0x2de92c6f592b0275; 0x4a7484aa6ea6e483; 0x5cb0a9dcbd41fbd4; 0x76f988da831153b5;
    0x983e5152ee66dfab; 0xa831c66d2db43210; 0xb00327c898fb213f; 0xbf597fc7beef0ee4;
    0xc6e00bf33da88fc2; 0xd5a79147930aa725; 0x06ca6351e003826f; 0x142929670a0e6e70;
    0x27b70a8546d22ffc; 0x2e1b21385c26c926; 0x4d2c6dfc5ac42aed; 0x53380d139d95b3df;
    0x650a73548baf63de; 0x766a0abb3c77b2a8; 0x81c2c92e47edaee6; 0x92722c851482353b;
    0xa2bfe8a14cf10364; 0xa81a664bbc423001; 0xc24b8b70d0f89791; 0xc76c51a30654be30;
    0xd192e819d6ef5218; 0xd69906245565a910; 0xf40e35855771202a; 0x106aa07032bbd1b8;
    0x19a4c116b8d2d0c8; 0x1e376c085141ab53; 0x2748774cdf8eeb99; 0x34b0bcb5e19b48a8;
    0x391c0cb3c5c95a63; 0x4ed8aa4ae3418acb; 0x5b9cca4f7763e373; 0x682e6ff3d6b2b8a3;
    0x748f82ee5defb2fc; 0x78a5636f43172f60; 0x84c87814a1f0ab72; 0x8cc702081a6439ec;
    0x90befffa23631e28; 0xa4506cebde82bde9; 0xbef9a3f7b2c67915; 0xc67178f2e372532b;
    0xca273eceea26619c; 0xd186b8c721c0c207; 0xeada7dd6cde0eb1e; 0xf57d4f7fee6ed178;
    0x06f067aa72176fba; 0x0a637dc5a2c898a6; 0x113f9804bef90dae; 0x1b710b35131c471b;
    0x28db77f523047d84; 0x32caab7b40c72493; 0x3c9ebe0a15c9bebc; 0x431d67c49c100d4c;
    0x4cc5d4becb3e42b6; 0x597f299cfc657e2a; 0x5fcb6fab3ad6faec; 0x6c44198c4a475817 ].

(** Big-endian load of (up to) eight bytes. *)
Definition be_load (bs : list byte) : Z :=
  fold_left (fun acc b => acc * 256 + Z_of_byte b) bs 0.

(** Big-endian store of a 64-bit word. *)
Definition be_store (w : Z) : list byte :=
  [ byte_of_Z (Z.shiftr w 56); byte_of_Z (Z.shiftr w 48);
    byte_of_Z (Z.shiftr w 40); byte_of_Z (Z.shiftr w 32);
    byte_of_Z (Z.shiftr w 24); byte_of_Z (Z.shiftr w 16);
    byte_of_Z (Z.shiftr w 8);  byte_of_Z w ].

(** [w[0..15]] of one chunk. *)
Fixpoint load_words (n : nat) (p : list byte) : list Z :=
  match n with
  | O => []
  | S n' => be_load (firstn 8 p) :: load_words n' (skipn 8 p)
  end.

(** The extension [w[16..79]].  [win] holds [w[i-16 .. i-1]]. *)
Fixpoint extend (n : nat) (win : list Z) : list Z :=
  match n with
  | O => []
  | S n' =>
      let v1 := nth 14 win 0 in
      let t1 := Z.lxor (Z.lxor (rotr v1 19) (rotr v1 61)) (Z.shiftr v1 6) in
      let v2 := nth 1 win 0 in
      let t2 := Z.lxor (Z.lxor (rotr v2 1) (rotr v2 8)) (Z.shiftr v2 7) in
      let wi := add64 (add64 (add64 t1 (nth 9 win 0)) t2) (nth 0 win 0) in
      wi :: extend n' (tl win ++ [wi])
  end.

Definition schedule (p : list byte) : list Z :=
  let w16 := load_words 16 p in
  w16 ++ extend 64 w16.

(** One iteration of the compression loop. *)
Definition round (s : digest) (kw : Z * Z) : digest :=
  let '(Digest a b c d e f g h) := s in
  let t1 :=
    add64 (add64 (add64 (add64 h
      (Z.lxor (Z.lxor (rotr e 14) (rotr e 18)) (rotr e 41)))
      (Z.lxor (Z.land e f) (Z.land (not64 e) g)))
      (fst kw)) (snd kw) in
  let t2 :=
    add64 (Z.lxor (Z.lxor (rotr a 28) (rotr a 34)) (rotr a 39))
          (Z.lxor (Z.lxor (Z.land a b) (Z.land a c)) (Z.land b c)) in
  Digest (add64 t1 t2) a b c (add64 d t1) e f g.

(** The body of [blockGeneric]'s outer loop, for one chunk. *)
Definition block1 (dig : digest) (p : list byte) : digest :=
  let s := fold_left round (combine K (schedule p)) dig in
  Digest (add64 (h0 dig) (h0 s)) (add64 (h1 dig) (h1 s))
         (add64 (h2 dig) (h2 s)) (add64 (h3 dig) (h3 s))
         (add64 (h4 dig) (h4 s)) (add64 (h5 dig) (h5 s))
         (add64 (h6 dig) (h6 s)) (add64 (h7 dig) (h7 s)).

(** [blockGeneric]: [n] whole chunks of [p]. *)
Fixpoint block (n : nat) (dig : digest) (p : list byte) : digest :=
  match n with
  | O => dig
  | S n' => block n' (block1 dig (firstn chunk p)) (skipn chunk p)
  end.

(** The padding [checkSum] writes: 0x80, zeroes up to 112 mod 128, then the
    bit length in 16 bytes, big-endian; [len] being a [uint64], the upper
    eight are zero. *)
Definition padding (len : Z) : list byte :=
  let r := len mod 128 in
  let zeros := if r <? 112 then 112 - r else 128 + 112 - r in
  (x80 :: repeat x00 (Z.to_nat (zeros - 1)))
    ++ be_store 0
    ++ be_store (u64 (Z.shiftl len 3)).

(** [New(); Write(msg); Sum(nil)] *)
Definition sum (msg : list byte) : list byte :=
  let p := msg ++ padding (Z.of_nat (length msg)) in
  let d := block (Nat.div (length p) chunk) init p in
  be_store (h0 d) ++ be_store (h1 d) ++ be_store (h2 d) ++ be_store (h3 d)
    ++ be_store (h4 d) ++ be_store (h5 d) ++ be_store (h6 d) ++ be_store (h7 d).

(** [sha512.Size] *)
Definition Size : nat := 64.

End Sha512.

(** ** encoding/base64, [StdEncoding] *)

Module Base64.

Definition encodeStd : string :=
  "ABCDEFGHIJKLMNOPQRSTUVWXYZabcdefghijklmnopqrstuvwxyz0123456789+/".

Definition StdPadding : ascii := "="%char.

Definition enc (v : Z) : ascii :=
  match String.get (Z.to_nat (Z.land v 63)) encodeStd with
  | Some c => c
  | None => StdPadding
  end.

(** [EncodeToString]: three source bytes give four characters; a last
    group of one or two bytes is padded with [=]. *)
Fixpoint EncodeToString (src : list byte) : string :=
  match src with
  | [] => EmptyString
  | [b0] =>
      let v := Z.shiftl (Z_of_byte b0) 16 in
      String (enc (Z.shiftr v 18)) (String (enc (Z.shiftr v 12))
        (String StdPadding (String StdPadding EmptyString)))
  | [b0; b1] =>
      let v := Z.lor (Z.shiftl (Z_of_byte b0) 16) (Z.shiftl (Z_of_byte b1) 8) in
      String (enc (Z.shiftr v 18)) (String (enc (Z.shiftr v 12))
        (String (enc (Z.shiftr v 6)) (String StdPadding EmptyString)))
  | b0 :: b1 :: b2 :: rest =>
      let v := Z.lor (Z.lor (Z.shiftl (Z_of_byte b0) 16)
                            (Z.shiftl (Z_of_byte b1) 8)) (Z_of_byte b2) in
      String (enc (Z.shiftr v 18)) (String (enc (Z.shiftr v 12))
        (String (enc (Z.shiftr v 6)) (String (enc v) (EncodeToString rest))))
  end.

End Base64.

(** [[]byte(s)] for a Go string [s]. *)
Definition bytes_of_string (s : string) : list byte := list_byte_of_string s.


(** ** package time *)

Module time.

(** A [time.Duration] is an [int64] count of nanoseconds. *)
Definition Millisecond : Z := 1000000.
Definition Second : Z := 1000 * Millisecond.

(** [Time.Sub] on two readings of the monotonic clock (nanoseconds): the
    difference, saturated to the range of [Duration]. *)
Definition Sub (t u : Z) : Z :=
  Z.max min_int64 (Z.min max_int64 (t - u)).

End time.

(** ** The concrete service *)

Record PasswordManager : Type := mkPasswordManager {
  tasks : gmap Z slice;   (* hash results, indexed by id *)
  id : Z;                 (* next task id *)
  requests : Z;           (* number of processed hash requests *)
  totalTime : Z;          (* total time spent processing requests *)
  pendingHashes : Z;      (* currently pending hash requests *)
  shuttingDown : bool     (* a shutdown is in progress *)
}.

Definition NapTimeSec : Z := 5 * time.Second.

(** The arguments of one [go pm.calculateHash(id, pwd, ts)]. *)
Record goroutine : Type := Go {
  g_id : Z;
  g_pwd : string;
  g_ts : Z
}.

Definition NewPasswordManager : PasswordManager :=
  {| tasks := ∅; id := 0; requests := 0; totalTime := 0;
     pendingHashes := 0; shuttingDown := false |}.

(** [Hash]: [ts] is the reading of [time.Now()] on entry.  Returns the task
    id, the goroutine it starts, and the manager after the critical
    section. *)
Definition Hash (pm : PasswordManager) (pwd : string) (ts : Z)
  : Z * goroutine * PasswordManager :=
  let pm1 := {| tasks := tasks pm; id := id pm; requests := requests pm;
                totalTime := totalTime pm;
                pendingHashes := wrap64 (pendingHashes pm + 1);
                shuttingDown := shuttingDown pm |} in
  let id0 := id pm1 in
  let pm2 := {| tasks := tasks pm1; id := wrap64 (id pm1 + 1);
                requests := requests pm1; totalTime := totalTime pm1;
                pendingHashes := pendingHashes pm1;
                shuttingDown := shuttingDown pm1 |} in
  (id0, Go id0 pwd ts, pm2).

(** [calculateHash], after its sleep: the digest is computed outside the
    lock, then the critical section runs with [now] the reading of
    [time.Now()] inside it. *)
Definition calculateHash (pm : PasswordManager) (id0 : Z) (pwd : string)
    (ts now : Z) : PasswordManager :=
  let hashedPwd : slice := Some (Sha512.sum (bytes_of_string pwd)) in
  let elapsed := time.Sub now ts in
  {| tasks := <[id0 := hashedPwd]> (tasks pm);
     id := id pm;
     requests := wrap64 (requests pm + 1);
     totalTime := wrap64 (totalTime pm + elapsed);
     pendingHashes := wrap64 (pendingHashes pm - 1);
     shuttingDown := shuttingDown pm |}.

(** [pm.tasks[id]]: a missing key reads as the zero value, [nil]. *)
Definition index (m : gmap Z slice) (i : Z) : slice :=
  match m !! i with
  | Some v => v
  | None => None
  end.

Definition Get (pm : PasswordManager) (i : Z) : slice * PasswordManager :=
  let pwdHash := index (tasks pm) i in
  (pwdHash,
   {| tasks := delete i (tasks pm); id := id pm; requests := requests pm;
      totalTime := totalTime pm; pendingHashes := pendingHashes pm;
      shuttingDown := shuttingDown pm |}).

(** Go's [/] on integers truncates toward zero: [Z.quot]. *)
Definition Stats (pm : PasswordManager) : Z * Z :=
  let requests0 := requests pm in
  let avgTime :=
    if 0 <? requests0
    then Z.quot (Z.quot (totalTime pm) 1000000) requests0
    else 0 in
  (requests0, avgTime).

Definition HasPendingHashes (pm : PasswordManager) : bool :=
  0 <? pendingHashes pm.

Definition Shutdown (pm : PasswordManager) : PasswordManager :=
  {| tasks := tasks pm; id := id pm; requests := requests pm;
     totalTime := totalTime pm; pendingHashes := pendingHashes pm;
     shuttingDown := true |}.

Definition IsShuttingDown (pm : PasswordManager) : bool :=
  shuttingDown pm.

(** ** The manager and its goroutines

    Every method holds the mutex for its whole access to the struct, so a
    run of the program is an interleaving of critical sections.  [pool]
    holds the goroutines that [Hash] has started and that have not yet
    taken the lock. *)

Record World : Type := mkWorld {
  pm : PasswordManager;
  pool : list goroutine
}.

Inductive call : Type :=
| CHash (pwd : string) (ts : Z)
| CComplete (k : nat) (now : Z)   (* goroutine [k] of the pool finishes *)
| CGet (i : Z)
| CStats
| CHasPendingHashes
| CShutdown
| CIsShuttingDown.

Inductive ret : Type :=
| RId (i : Z)
| RDone
| RHash (h : slice)
| RStats (requests0 avgTime : Z)
| RBool (b : bool).

Definition initial : World := {| pm := NewPasswordManager; pool := [] |}.

Definition step (w : World) (c : call) : option (World * ret) :=
  match c with
  | CHash pwd ts =>
      let '(i, g, pm') := Hash (pm w) pwd ts in
      Some ({| pm := pm'; pool := pool w ++ [g] |}, RId i)
  | CComplete k now =>
      match pool w !! k with
      | Some g =>
          Some ({| pm := calculateHash (pm w) (g_id g) (g_pwd g) (g_ts g) now;
                   pool := delete k (pool w) |}, RDone)
      | None => None
      end
  | CGet i =>
      let '(h, pm') := Get (pm w) i in
      Some ({| pm := pm'; pool := pool w |}, RHash h)
  | CStats =>
      let '(r, a) := Stats (pm w) in Some (w, RStats r a)
  | CHasPendingHashes => Some (w, RBool (HasPendingHashes (pm w)))
  | CShutdown => Some ({| pm := Shutdown (pm w); pool := pool w |}, RDone)
  | CIsShuttingDown => Some (w, RBool (IsShuttingDown (pm w)))
  end.

Fixpoint run (w : World) (tr : list call) : option (World * list ret) :=
  match tr with
  | [] => Some (w, [])
  | c :: tr' =>
      match step w c with
      | Some (w1, r) =>
          match run w1 tr' with
          | Some (w2, rs) => Some (w2, r :: rs)
          | None => None
          end
      | None => None
      end
  end.

(** ** The interface and the handler adapter *)

(** [PasswordManagerInterface].  A value of [T] is the service behind the
    interface; [iHash] also receives the clock reading its implementation
    takes on entry. *)
Class PasswordManagerInterface (T : Type) : Type := {
  iHash : T -> string -> Z -> Z * T;
  iGet : T -> Z -> slice * T;
  iStats : T -> Z * Z;
  iHasPendingHashes : T -> bool;
  iShutdown : T -> T;
  iIsShuttingDown : T -> bool
}.

(** [var pm PasswordManagerInterface = NewPasswordManager()]: the concrete
    manager, with the goroutines it has started. *)
#[export] Instance World_interface : PasswordManagerInterface World := {
  iHash w pwd ts :=
    let '(i, g, pm') := Hash (pm w) pwd ts in
    (i, {| pm := pm'; pool := pool w ++ [g] |});
  iGet w i :=
    let '(h, pm') := Get (pm w) i in (h, {| pm := pm'; pool := pool w |});
  iStats w := Stats (pm w);
  iHasPendingHashes w := HasPendingHashes (pm w);
  iShutdown w := {| pm := Shutdown (pm w); pool := pool w |};
  iIsShuttingDown w := IsShuttingDown (pm w)
}.

Module http.

Definition MethodGet : string := "GET".
Definition MethodPost : string := "POST".

Definition StatusOK : Z := 200.
Definition StatusAccepted : Z := 202.
Definition StatusBadRequest : Z := 400.
Definition StatusForbidden : Z := 403.
Definition StatusNotFound : Z := 404.
Definition StatusMethodNotAllowed : Z := 405.

(** What the handlers read of a [*http.Request]; [Body] is [None] when
    [ioutil.ReadAll] fails. *)
Record Request : Type := mkRequest {
  Method : string;
  Path : string;
  Body : option (list byte)
}.

(** What a handler leaves in its [http.ResponseWriter]. *)
Record Response : Type := mkResponse {
  StatusCode : Z;
  Written : string
}.

Definition LF : string := String (ascii_of_nat 10) EmptyString.

(** [http.Error]: the status code, then the message and a newline. *)
Definition Error (error : string) (code : Z) : Response :=
  {| StatusCode := code; Written := (error ++ LF)%string |}.

End http.

Module strings.

(** [strings.Split(s, sep)] for a separator of one byte. *)
Fixpoint Split (s : string) (sep : ascii) : list string :=
  match s with
  | EmptyString => [EmptyString]
  | String c s' =>
      if Ascii.eqb c sep then EmptyString :: Split s' sep
      else match Split s' sep with
           | x :: xs => String c x :: xs
           | [] => [String c EmptyString]
           end
  end.

End strings.

Module strconv.

(** [strconv.FormatInt(i, 10)] *)
Definition FormatInt (i : Z) : string :=
  DecimalString.NilZero.string_of_int (Z.to_int i).

Definition digit (c : ascii) : option Z :=
  let n := Z.of_nat (nat_of_ascii c) in
  if (48 <=? n) && (n <=? 57) then Some (n - 48) else None.

Fixpoint digits (s : string) (acc : Z) : option Z :=
  match s with
  | EmptyString => Some acc
  | String c s' =>
      match digit c with
      | Some d => digits s' (acc * 10 + d)
      | None => None
      end
  end.

(** The magnitude: at least one digit, digits only. *)
Definition ParseUint (s : string) : option Z :=
  match s with
  | EmptyString => None
  | _ => digits s 0
  end.

(** [strconv.ParseInt(s, 10, 64)]; [None] stands for [err != nil], either
    of its two kinds (syntax, range). *)
Definition ParseInt (s : string) : option Z :=
  match s with
  | EmptyString => None
  | String c s' =>
      let neg := Ascii.eqb c "-" in
      let s0 := if Ascii.eqb c "+" || neg then s' else s in
      match ParseUint s0 with
      | None => None
      | Some un =>
          if negb neg && (2 ^ 63 <=? un) then None
          else if neg && (2 ^ 63 <? un) then None
          else Some (if neg then - un else un)
      end
  end.

End strconv.

(** [s[n:]] on a string; [None] is the run-time panic for [n > len(s)]. *)
Fixpoint slice_from (s : string) (n : nat) : option string :=
  match n with
  | O => Some s
  | S n' =>
      match s with
      | EmptyString => None
      | String _ s' => slice_from s' n'
      end
  end.

(** The handlers call the interface one method at a time; between two calls
    of one handler other requests may run.  The functions below are the
    handlers run without such an interruption. *)
Module PasswordManagerHandler.

Section Handler.

Context {T : Type} `{PasswordManagerInterface T}.

(** [Some r]: [r] has been written and the caller returns. *)
Definition isShutdownPending (pmh : T) : option http.Response :=
  if iIsShuttingDown pmh
  then Some (http.Error "Shutdown is pending - request rejected"
                        http.StatusForbidden)
  else None.

(** [POST /hash]; [ts] is the clock reading [Hash] takes. *)
Definition hash (pmh : T) (req : http.Request) (ts : Z)
  : http.Response * T :=
  match isShutdownPending pmh with
  | Some r => (r, pmh)
  | None =>
      if negb (String.eqb (http.Method req) http.MethodPost)
      then (http.Error "Invalid method ('POST' required)"
                       http.StatusMethodNotAllowed, pmh)
      else
        match http.Body req with
        | None => (http.Error "Can't read body" http.StatusBadRequest, pmh)
        | Some [] =>
            (http.Error "Can't read body" http.StatusBadRequest, pmh)
        | Some body =>
            let data := string_of_list_byte body in
            match strings.Split data "=" with
            | [item0; item1] =>
                if negb (String.eqb item0 "password")
                   || (String.length item1 =? 0)%nat
                then (http.Error "Invalid parameters"
                                 http.StatusBadRequest, pmh)
                else
                  let '(i, pmh') := iHash pmh item1 ts in
                  ({| http.StatusCode := http.StatusAccepted;
                      http.Written := strconv.FormatInt i |}, pmh')
            | _ => (http.Error "Invalid parameters"
                               http.StatusBadRequest, pmh)
            end
        end
  end.

(** [GET /hash/<id>]; [None] is the panic of [req.URL.Path[6:]] on a
    path shorter than six bytes (the mux routes no such path here). *)
Definition get (pmh : T) (req : http.Request)
  : option (http.Response * T) :=
  match isShutdownPending pmh with
  | Some r => Some (r, pmh)
  | None =>
      if negb (String.eqb (http.Method req) http.MethodGet)
      then Some (http.Error "Invalid method ('GET' required)"
                            http.StatusMethodNotAllowed, pmh)
      else
        match slice_from (http.Path req) 6 with
        | None => None
        | Some ids =>
            match strconv.ParseInt ids with
            | None => Some (http.Error "Invalid method resource id"
                                       http.StatusBadRequest, pmh)
            | Some i =>
                let '(pwdHash, pmh') := iGet pmh i in
                match pwdHash with
                | None => Some (http.Error "Hash not found"
                                           http.StatusNotFound, pmh')
                | Some bs =>
                    Some ({| http.StatusCode := http.StatusOK;
                             http.Written := Base64.EncodeToString bs |},
                          pmh')
                end
            end
        end
  end.


End Handler.

(** The loop of [shutdown], on the concrete service.  [sched] lists, for
    each [time.Sleep] of the loop, the critical sections the rest of the
    program runs meanwhile; [None] means the schedule ends (or asks for a
    goroutine that is not there) while hashes are still pending. *)
Fixpoint shutdown_wait (w : World) (sched : list (list call))
  : option World :=
  if iHasPendingHashes w then
    match sched with
    | [] => None
    | tr :: sched' =>
        match run w tr with
        | Some (w1, _) => shutdown_wait w1 sched'
        | None => None
        end
    end
  else Some w.

(** [shutdown]: set the flag, then poll until nothing is pending; [pre] is
    what the rest of the program runs between the call of [Shutdown] and the
    first poll.  On [Some w] the caller goes on to [os.Exit(0)]. *)
Definition shutdown (w : World) (pre : list call) (sched : list (list call))
  : option World :=
  match run (iShutdown w) pre with
  | Some (w1, _) => shutdown_wait w1 sched
  | None => None
  end.

End PasswordManagerHandler.

(** ** Histories *)

(** The values submitted by a run, in submission order. *)
Definition submitted (tr : list call) : list string :=
  omap (fun c => match c with CHash v _ => Some v | _ => None end) tr.

(** The number of [Hash] calls of a run. *)
Definition hashes (tr : list call) : nat := length (submitted tr).

(** The task ids a run has returned, in the order of return. *)
Definition handles (rs : list ret) : list Z :=
  omap (fun r => match r with RId i => Some i | _ => None end) rs.

(** How often a run has fetched a hash, not [nil], for id [h]. *)
Fixpoint fetched (h : Z) (tr : list call) (rs : list ret) : nat :=
  match tr, rs with
  | CGet i :: tr', RHash (Some _) :: rs' =>
      ((if decide (i = h) then 1 else 0) + fetched h tr' rs')%nat
  | _ :: tr', _ :: rs' => fetched h tr' rs'
  | _, _ => O
  end.

(** The ids of the goroutines still to finish. *)
Definition pool_ids (w : World) : list Z := g_id <$> pool w.

(** What a state reached without overflow of the id counter looks like,
    when [vs] are the values submitted so far: the counter is their number,
    a pending goroutine or a stored result belongs to exactly one earlier
    submission, and no id is both pending and stored. *)
Record consistent (vs : list string) (w : World) : Prop := {
  c_id : id (pm w) = Z.of_nat (length vs);
  c_pending : pendingHashes (pm w) = Z.of_nat (length (pool w));
  c_requests :
    requests (pm w) = Z.of_nat (length vs) - Z.of_nat (length (pool w));
  c_le : (length (pool w) <= length vs)%nat;
  c_nodup : NoDup (pool_ids w);
  c_pool : forall g, g ∈ pool w ->
    exists j, g_id g = Z.of_nat j /\ vs !! j = Some (g_pwd g);
  c_tasks : forall i x, tasks (pm w) !! i = Some x ->
    (i ∉ pool_ids w)
    /\ exists j v, i = Z.of_nat j /\ vs !! j = Some v
                   /\ x = Some (Sha512.sum (bytes_of_string v))
}.

(** Id [h] will never be fetched again: it is below the counter, and neither
    pending nor stored. *)
Definition spent (h : Z) (w : World) : Prop :=
  h < id (pm w) /\ (h ∉ pool_ids w) /\ tasks (pm w) !! h = None.

(** Every stored result is a slice of [sha512.Size] bytes. *)
Definition digests (w : World) : Prop :=
  forall i x, tasks (pm w) !! i = Some x ->
    exists bs, x = Some bs /\ length bs = Sha512.Size.

(** The number of goroutines a run has seen finish. *)
Definition completions (tr : list call) : nat :=
  length (omap (fun c => match c with CComplete k _ => Some k | _ => None end)
               tr).

(** The submissions of a run: each value with the id returned for it. *)
Fixpoint submissions (tr : list call) (rs : list ret) : list (Z * string) :=
  match tr, rs with
  | CHash v _ :: tr', RId i :: rs' => (i, v) :: submissions tr' rs'
  | _ :: tr', _ :: rs' => submissions tr' rs'
  | _, _ => []
  end.

(** The completions of a run take between 0 and [E] nanoseconds each on the
    clock: each goroutine reads it no earlier than [Hash] did for it, and at
    most [E] later. *)
Fixpoint timed (E : Z) (w : World) (tr : list call) : Prop :=
  match tr with
  | [] => True
  | c :: tr' =>
      match c with
      | CComplete k now =>
          match pool w !! k with
          | Some g => g_ts g <= now <= g_ts g + E
          | None => True
          end
      | _ => True
      end
      /\ match step w c with
         | Some (w1, _) => timed E w1 tr'
         | None => True
         end
  end.

(** Two states used as examples: after one [Hash], and after two of
    which the first has finished. *)
Definition one_pending : World :=
  {| pm := mkPasswordManager ∅ 1 0 0 1 false;
     pool := [Go 0 "angryMonkey" 0] |}.

Definition one_done_one_pending : World :=
  {| pm := mkPasswordManager
             (<[0 := Some (Sha512.sum (bytes_of_string "a"))]> ∅)
             2 1 5000000000 1 false;
     pool := [Go 1 "b" 7] |}.

(** How often the byte [sep] occurs in [s]. *)
Fixpoint occurrences (s : string) (sep : ascii) : nat :=
  match s with
  | EmptyString => O
  | String c s' =>
      if Ascii.eqb c sep then S (occurrences s' sep) else occurrences s' sep
  end.

(** The number of [Get] calls of a run that returned a hash. *)
Definition fetches (rs : list ret) : nat :=
  length (omap (fun r => match r with RHash (Some bs) => Some bs | _ => None end)
               rs).

(** Every completion of the run reads the clock at least [NapTimeSec] after
    [Hash] did for it (the [time.Sleep] of [calculateHash]), and at most [E]
    after. *)
Fixpoint slept (E : Z) (w : World) (tr : list call) : Prop :=
  match tr with
  | [] => True
  | c :: tr' =>
      match c with
      | CComplete k now =>
          match pool w !! k with
          | Some g => g_ts g + NapTimeSec <= now <= g_ts g + E
          | None => True
          end
      | _ => True
      end
      /\ match step w c with
         | Some (w1, _) => slept E w1 tr'
         | None => True
         end
  end.

(** A [POST /hash] with the form body [password=pw], and a [GET /hash/ids]. *)
Definition post_hash (pw : string) : http.Request :=
  {| http.Method := http.MethodPost; http.Path := "/hash";
     http.Body := Some (list_byte_of_string ("password=" ++ pw)) |}.

Definition get_hash (ids : string) : http.Request :=
  {| http.Method := http.MethodGet; http.Path := ("/hash/" ++ ids)%string;
     http.Body := None |}.

(** [one_done_one_pending] after [Shutdown] and the second completion. *)
Definition both_done : World :=
  {| pm := calculateHash (Shutdown (pm one_done_one_pending)) 1 "b" 7
             6000000000;
     pool := [] |}.

(** * Verification *)

(** ** Arithmetic of the machine integers *)

Lemma wrap64_small z : min_int64 <= z <= max_int64 -> wrap64 z = z.
Proof.
  unfold wrap64, min_int64, max_int64. intros Hz.
  rewrite Z.mod_small; lia.
Qed.

Lemma wrap64_range z : min_int64 <= wrap64 z <= max_int64.
Proof.
  unfold wrap64, min_int64, max_int64.
  pose proof (Z.mod_pos_bound (z + 2 ^ 63) (2 ^ 64) ltac:(lia)). lia.
Qed.

Lemma wrap64_add_l a b : wrap64 (wrap64 a + b) = wrap64 (a + b).
Proof.
  unfold wrap64.
  replace ((a + 2 ^ 63) mod 2 ^ 64 - 2 ^ 63 + b + 2 ^ 63)
    with ((a + 2 ^ 63) mod 2 ^ 64 + b) by lia.
  rewrite Zplus_mod_idemp_l. f_equal. f_equal. lia.
Qed.

Lemma wrap64_add_r a b : wrap64 (a + wrap64 b) = wrap64 (a + b).
Proof. rewrite Z.add_comm, wrap64_add_l. f_equal. lia. Qed.

Lemma time_Sub_range t u : min_int64 <= time.Sub t u <= max_int64.
Proof. unfold time.Sub, min_int64, max_int64. lia. Qed.

(** ** The digest *)

Lemma sum_length msg : length (Sha512.sum msg) = Sha512.Size.
Proof. unfold Sha512.sum. rewrite !length_app. reflexivity. Qed.

Example sum_empty :
  map Z_of_byte (firstn 8 (Sha512.sum [])) =
  [0xcf; 0x83; 0xe1; 0x35; 0x7e; 0xef; 0xb8; 0xbd].
Proof. vm_compute. reflexivity. Qed.

(** Two chunks. *)
Example sum_200a :
  map Z_of_byte (firstn 8 (Sha512.sum (repeat "a"%byte 200))) =
  [0x4b; 0x11; 0x45; 0x9c; 0x33; 0xf5; 0x2a; 0x22].
Proof. vm_compute. reflexivity. Qed.

Lemma angryMonkey_digest :
  Base64.EncodeToString (Sha512.sum (bytes_of_string "angryMonkey")) =
  "ZEHhWB65gUlzdVwtDQArEyx+KVLzp/aTaRaPlBzYRIFj6vjFdqEb0Q5B8zVKCZ0vKbZPZklJz0Fd7su2A+gf7Q=="%string.
Proof. vm_compute. reflexivity. Qed.

(** ** Runs *)

Lemma run_app w tr1 tr2 :
  run w (tr1 ++ tr2) =
  match run w tr1 with
  | Some (w1, rs1) =>
      match run w1 tr2 with
      | Some (w2, rs2) => Some (w2, rs1 ++ rs2)
      | None => None
      end
  | None => None
  end.
Proof.
  revert w. induction tr1 as [|c tr1 IH]; intros w; simpl.
  - destruct (run w tr2) as [[w2 rs2]|]; reflexivity.
  - destruct (step w c) as [[w1 r]|]; [|reflexivity].
    rewrite IH. destruct (run w1 tr1) as [[w2 rs1]|]; [|reflexivity].
    destruct (run w2 tr2) as [[w3 rs2]|]; reflexivity.
Qed.

Lemma run_cons_inv w c tr w' rs :
  run w (c :: tr) = Some (w', rs) ->
  exists w1 r rs', step w c = Some (w1, r) /\ run w1 tr = Some (w', rs')
                   /\ rs = r :: rs'.
Proof.
  simpl. destruct (step w c) as [[w1 r]|]; [|discriminate].
  destruct (run w1 tr) as [[w2 rs']|] eqn:Hrun; [|discriminate].
  intros [= <- <-]. exists w1, r, rs'. auto.
Qed.

(** A property kept by every step is kept by every run. *)
Lemma run_invariant (P : World -> Prop) :
  (forall w c w' r, P w -> step w c = Some (w', r) -> P w') ->
  forall tr w w' rs, P w -> run w tr = Some (w', rs) -> P w'.
Proof.
  intros Hstep. induction tr as [|c tr IH]; intros w w' rs HP Hrun.
  - simpl in Hrun. injection Hrun as <- _. exact HP.
  - apply run_cons_inv in Hrun as (w1 & r & rs' & Hs & Hr & _).
    eapply IH; [|exact Hr]. eapply Hstep; eauto.
Qed.

Lemma hashes_cons c tr :
  hashes (c :: tr) =
  match c with CHash _ _ => S (hashes tr) | _ => hashes tr end.
Proof. destruct c; reflexivity. Qed.

(** ** Statistics *)

(** Without the sign condition the average is the quotient truncated toward
    zero. *)
Lemma Stats_quot pm0 :
  0 < requests pm0 ->
  Stats pm0 = (requests pm0, Z.quot (totalTime pm0) (1000000 * requests pm0)).
Proof.
  intros Hr. unfold Stats.
  destruct (Z.ltb_spec 0 (requests pm0)) as [_|]; [|lia].
  rewrite Z.quot_quot by lia. reflexivity.
Qed.

(** C5: with a positive number of processed requests and a non-negative
    total time, [Stats] reports the processed requests and, as average, the
    total time in nanoseconds divided by [1000000 * requests], rounded
    down. *)
Theorem Stats_average pm0 :
  0 < requests pm0 ->
  0 <= totalTime pm0 ->
  Stats pm0 = (requests pm0, totalTime pm0 / (1000000 * requests pm0)).
Proof.
  intros Hr Ht. rewrite Stats_quot by exact Hr.
  rewrite Z.quot_div_nonneg by lia. reflexivity.
Qed.

Lemma Stats_average_witness :
  Stats (mkPasswordManager ∅ 3 3 15000999999 0 false) = (3, 5000).
Proof.
  exact (Stats_average (mkPasswordManager ∅ 3 3 15000999999 0 false)
           ltac:(simpl; lia) ltac:(simpl; lia)).
Defined.

(** A negative total is truncated toward zero, not rounded down. *)
Example Stats_negative_total :
  Stats (mkPasswordManager ∅ 1 1 (-1) 0 false) = (1, 0)
  /\ (-1) / (1000000 * 1) = -1.
Proof. split; reflexivity. Qed.

Lemma no_submission_step w c w' r :
  requests (pm w) = 0 /\ pool w = [] ->
  hashes [c] = O ->
  step w c = Some (w', r) ->
  requests (pm w') = 0 /\ pool w' = [].
Proof.
  intros [Hr Hp] Hc Hs. destruct c; simpl in Hs.
  - discriminate Hc.
  - rewrite Hp in Hs. discriminate Hs.
  - injection Hs as <- _. auto.
  - injection Hs as <- _. auto.
  - injection Hs as <- _. auto.
  - injection Hs as <- _. auto.
  - injection Hs as <- _. auto.
Qed.

Lemma no_submission_run tr : forall w w' rs,
  requests (pm w) = 0 /\ pool w = [] ->
  hashes tr = O ->
  run w tr = Some (w', rs) ->
  requests (pm w') = 0 /\ pool w' = [].
Proof.
  induction tr as [|c tr IH]; intros w w' rs Hw Hh Hrun.
  - simpl in Hrun. injection Hrun as <- _. exact Hw.
  - apply run_cons_inv in Hrun as (w1 & r & rs' & Hs & Hr & _).
    rewrite hashes_cons in Hh.
    apply (IH w1 w' rs'); [|destruct c; (discriminate || exact Hh)|exact Hr].
    eapply no_submission_step; [exact Hw| |exact Hs].
    destruct c; (discriminate || reflexivity).
Qed.

(** C7: [Stats] of a new manager is (0, 0), it stays (0, 0) along every run
    without a [Hash] call, and the average of any manager with zero
    processed requests is 0. *)
Theorem Stats_zero tr w rs pm0 :
  run initial tr = Some (w, rs) ->
  hashes tr = O ->
  requests pm0 = 0 ->
  Stats NewPasswordManager = (0, 0)
  /\ Stats (pm w) = (0, 0)
  /\ Stats pm0 = (0, 0).
Proof.
  intros Hrun Hh H0. split; [reflexivity|]. split.
  - destruct (no_submission_run tr initial w rs) as [Hr _]; auto.
    unfold Stats. rewrite Hr. reflexivity.
  - unfold Stats. rewrite H0. reflexivity.
Qed.

Lemma Stats_zero_witness :
  Stats NewPasswordManager = (0, 0)
  /\ Stats (Shutdown NewPasswordManager) = (0, 0)
  /\ Stats (mkPasswordManager ∅ 2 0 0 2 false) = (0, 0).
Proof.
  exact (Stats_zero [CGet 7; CStats; CShutdown]
           {| pm := Shutdown NewPasswordManager; pool := [] |}
           [RHash None; RStats 0 0; RDone]
           (mkPasswordManager ∅ 2 0 0 2 false)
           eq_refl eq_refl eq_refl).
Defined.

(** ** Shutdown *)

Lemma Shutdown_Shutdown pm0 : Shutdown (Shutdown pm0) = Shutdown pm0.
Proof. reflexivity. Qed.

Lemma Shutdown_iter n pm0 :
  Nat.iter (S n) Shutdown pm0 = Shutdown pm0.
Proof.
  induction n as [|n IH]; [reflexivity|].
  change (Nat.iter (S (S n)) Shutdown pm0)
    with (Shutdown (Nat.iter (S n) Shutdown pm0)).
  rewrite IH. apply Shutdown_Shutdown.
Qed.

(** No critical section clears the flag. *)
Lemma shuttingDown_step w c w' r :
  shuttingDown (pm w) = true ->
  step w c = Some (w', r) ->
  shuttingDown (pm w') = true.
Proof.
  intros Hsd Hs. destruct c; simpl in Hs.
  - injection Hs as <- _. exact Hsd.
  - destruct (pool w !! k); [|discriminate]. injection Hs as <- _. exact Hsd.
  - injection Hs as <- _. exact Hsd.
  - injection Hs as <- _. exact Hsd.
  - injection Hs as <- _. exact Hsd.
  - injection Hs as <- _. reflexivity.
  - injection Hs as <- _. exact Hsd.
Qed.

Lemma shuttingDown_run tr w w' rs :
  shuttingDown (pm w) = true ->
  run w tr = Some (w', rs) ->
  shuttingDown (pm w') = true.
Proof.
  apply (run_invariant (fun w => shuttingDown (pm w) = true)).
  exact shuttingDown_step.
Qed.

(** C6: one or more calls of [Shutdown] leave the manager as a single call
    does, [IsShuttingDown] is true afterwards, and it is still true after
    any further run of the service. *)
Theorem Shutdown_idempotent_terminal n w tr w' rs :
  (1 <= n)%nat ->
  run (iShutdown w) tr = Some (w', rs) ->
  Nat.iter n Shutdown (pm w) = Shutdown (pm w)
  /\ run w (repeat CShutdown n) = Some (iShutdown w, repeat RDone n)
  /\ IsShuttingDown (pm (iShutdown w)) = true
  /\ IsShuttingDown (pm w') = true.
Proof.
  intros Hn Hrun.
  destruct n as [|n]; [lia|]. clear Hn.
  split; [apply Shutdown_iter|]. split; [|split].
  - simpl. clear Hrun. induction n as [|n IH]; [reflexivity|].
    simpl in IH |- *.
    destruct (run _ (repeat CShutdown n)) as [[w2 rs2]|]; [|discriminate].
    injection IH as <- <-. reflexivity.
  - reflexivity.
  - unfold IsShuttingDown. eapply shuttingDown_run; [|exact Hrun]. reflexivity.
Qed.

Lemma Shutdown_idempotent_terminal_witness :
  Nat.iter 3 Shutdown NewPasswordManager = Shutdown NewPasswordManager
  /\ run initial (repeat CShutdown 3) = Some (iShutdown initial, repeat RDone 3)
  /\ IsShuttingDown (pm (iShutdown initial)) = true
  /\ IsShuttingDown
       (pm {| pm := mkPasswordManager ∅ 1 0 0 1 true;
              pool := [Go 0 "pw" 10] |}) = true.
Proof.
  exact (Shutdown_idempotent_terminal 3 initial
           [CHash "pw" 10; CIsShuttingDown]
           {| pm := mkPasswordManager ∅ 1 0 0 1 true; pool := [Go 0 "pw" 10] |}
           [RId 0; RBool true]
           ltac:(lia) eq_refl).
Defined.

(** ** Task ids *)

Lemma handles_cons r rs :
  handles (r :: rs) =
  match r with RId i => i :: handles rs | _ => handles rs end.
Proof. destruct r; reflexivity. Qed.

(** The ids a run returns, overflow included: the [k]-th [Hash] call from a
    counter standing at [n0] returns [n0 + k] wrapped to 64 bits. *)
Lemma run_handles_wrap tr : forall w w' rs n0,
  id (pm w) = wrap64 n0 ->
  run w tr = Some (w', rs) ->
  handles rs = map (fun k => wrap64 (n0 + Z.of_nat k)) (seq 0 (hashes tr))
  /\ id (pm w') = wrap64 (n0 + Z.of_nat (hashes tr)).
Proof.
  induction tr as [|c tr IH]; intros w w' rs n0 Hid Hrun.
  - simpl in Hrun. injection Hrun as <- <-. simpl.
    rewrite Z.add_0_r. auto.
  - apply run_cons_inv in Hrun as (w1 & r & rs' & Hs & Hr & ->).
    rewrite hashes_cons, handles_cons.
    destruct c; simpl in Hs;
      try (injection Hs as <- <-; eapply IH; [|exact Hr]; exact Hid).
    + injection Hs as <- <-.
      apply (IH _ _ _ (n0 + 1)) in Hr as [Hh Hi];
        [|simpl; rewrite Hid; apply wrap64_add_l].
      split.
      * simpl. rewrite Z.add_0_r, <- Hid. f_equal.
        rewrite Hh, <- seq_shift, map_map.
        apply map_ext. intros k. f_equal. lia.
      * rewrite Hi. f_equal. lia.
    + destruct (pool w !! k); [|discriminate]. injection Hs as <- <-.
      eapply IH; [|exact Hr]. exact Hid.
Qed.

(** C2: in a run from the new manager with at most 2^63 [Hash] calls,
    whatever else is called in between, the ids returned are 0, 1, ...,
    N-1 in the order of the calls; in particular no id is returned twice. *)
Theorem Hash_ids_sequential tr w rs :
  run initial tr = Some (w, rs) ->
  Z.of_nat (hashes tr) <= 2 ^ 63 ->
  handles rs = map Z.of_nat (seq 0 (hashes tr))
  /\ NoDup (handles rs).
Proof.
  intros Hrun Hb.
  destruct (run_handles_wrap tr initial w rs 0 eq_refl Hrun) as [Hh _].
  assert (Heq : handles rs = map Z.of_nat (seq 0 (hashes tr))).
  { rewrite Hh. apply map_ext_in. intros k Hk.
    apply in_seq in Hk. apply wrap64_small.
    unfold min_int64, max_int64. lia. }
  split; [exact Heq|].
  rewrite Heq. apply NoDup_fmap_2; [intros x y; lia|apply NoDup_seq].
Qed.

Lemma Hash_ids_sequential_witness :
  handles [RId 0; RDone; RHash (Some (Sha512.sum (bytes_of_string "a")));
           RId 1; RId 2; RHash None]
  = map Z.of_nat (seq 0 3)
  /\ NoDup (handles [RId 0; RDone;
                     RHash (Some (Sha512.sum (bytes_of_string "a")));
                     RId 1; RId 2; RHash None]).
Proof.
  refine (Hash_ids_sequential
            [CHash "a" 0; CComplete 0 5000000000; CGet 0;
             CHash "b" 1; CHash "c" 2; CGet 0]
            _ _ _ _).
  - vm_compute. reflexivity.
  - vm_compute. discriminate.
Defined.

(** After 2^63 calls the counter has wrapped: the next id is the least
    [int64]. *)
Lemma Hash_ids_overflow tr w rs :
  run initial tr = Some (w, rs) ->
  Z.of_nat (hashes tr) = 2 ^ 63 ->
  id (pm w) = min_int64.
Proof.
  intros Hrun Hn.
  destruct (run_handles_wrap tr initial w rs 0 eq_refl Hrun) as [_ Hi].
  rewrite Hi, Hn. reflexivity.
Qed.

(** ** The bookkeeping invariant *)

Lemma consistent_initial : consistent [] initial.
Proof.
  split; simpl; try reflexivity; try lia.
  - apply NoDup_nil_2.
  - intros g Hg. inversion Hg.
  - intros i x Hx. rewrite lookup_empty in Hx. discriminate.
Qed.

Lemma pool_id_bound vs w g :
  consistent vs w -> g ∈ pool w -> 0 <= g_id g < Z.of_nat (length vs).
Proof.
  intros Hc Hg. destruct (c_pool _ _ Hc g Hg) as (j & -> & Hj).
  apply lookup_lt_Some in Hj. lia.
Qed.

Lemma pool_ids_bound vs w i :
  consistent vs w -> i ∈ pool_ids w -> 0 <= i < Z.of_nat (length vs).
Proof.
  intros Hc Hi. unfold pool_ids in Hi.
  apply list_elem_of_fmap in Hi as (g & -> & Hg).
  eapply pool_id_bound; eauto.
Qed.

Lemma task_id_bound vs w i x :
  consistent vs w -> tasks (pm w) !! i = Some x ->
  0 <= i < Z.of_nat (length vs).
Proof.
  intros Hc Hx. destruct (c_tasks _ _ Hc i x Hx) as (_ & j & v & -> & Hj & _).
  apply lookup_lt_Some in Hj. lia.
Qed.

(** Removing the [k]-th goroutine removes its id, the ids being distinct. *)
Lemma pool_delete_id (l : list goroutine) k g :
  NoDup (g_id <$> l) -> l !! k = Some g ->
  g_id g ∉ g_id <$> delete k l.
Proof.
  intros Hnd Hk.
  rewrite <- (take_drop_middle l k g Hk) in Hnd.
  rewrite fmap_app, fmap_cons in Hnd.
  apply NoDup_app in Hnd as (_ & Hdisj & Hnd).
  apply NoDup_cons in Hnd as [Hnotin _].
  rewrite delete_take_drop, fmap_app. intros Hin.
  apply elem_of_app in Hin as [Hin|Hin]; [|exact (Hnotin Hin)].
  apply (Hdisj _ Hin). left.
Qed.

Lemma pool_delete_sub (l : list goroutine) k i :
  i ∈ g_id <$> delete k l -> i ∈ g_id <$> l.
Proof.
  intros Hin. apply list_elem_of_fmap in Hin as (g & -> & Hg).
  apply list_elem_of_fmap. exists g. split; [reflexivity|].
  eapply list_elem_of_delete_inv. exact Hg.
Qed.

Lemma consistent_Hash vs w v ts i g pm' :
  consistent vs w ->
  Z.of_nat (length vs) < max_int64 ->
  Hash (pm w) v ts = (i, g, pm') ->
  i = Z.of_nat (length vs) /\ g = Go i v ts
  /\ consistent (vs ++ [v]) {| pm := pm'; pool := pool w ++ [g] |}.
Proof.
  intros Hc Hb Hh. unfold Hash in Hh. simpl in Hh.
  injection Hh as <- <- <-.
  pose proof (c_le _ _ Hc) as Hle.
  split; [apply (c_id _ _ Hc)|]. split; [reflexivity|].
  split; simpl; rewrite ?length_app; simpl.
  - rewrite (c_id _ _ Hc), wrap64_small; unfold min_int64, max_int64 in *; lia.
  - rewrite (c_pending _ _ Hc), wrap64_small;
      unfold min_int64, max_int64 in *; lia.
  - rewrite (c_requests _ _ Hc). lia.
  - lia.
  - unfold pool_ids. simpl. rewrite fmap_app. simpl.
    apply NoDup_app. split; [apply (c_nodup _ _ Hc)|]. split.
    + intros x Hx Hx'. apply list_elem_of_singleton in Hx'. subst x.
      apply (pool_ids_bound _ _ _ Hc) in Hx. rewrite (c_id _ _ Hc) in Hx. lia.
    + apply NoDup_singleton.
  - intros g0 Hg0. apply elem_of_app in Hg0 as [Hg0|Hg0].
    + destruct (c_pool _ _ Hc g0 Hg0) as (j & Hj & Hv).
      exists j. split; [exact Hj|]. apply lookup_app_l_Some. exact Hv.
    + apply list_elem_of_singleton in Hg0. subst g0. simpl.
      exists (length vs). split; [apply (c_id _ _ Hc)|].
      rewrite lookup_app_r by lia. rewrite Nat.sub_diag. reflexivity.
  - intros i x Hx. destruct (c_tasks _ _ Hc i x Hx) as (Hni & j & v0 & -> & Hv & ->).
    split.
    + unfold pool_ids. simpl. rewrite fmap_app. simpl. intros Hin.
      apply elem_of_app in Hin as [Hin|Hin]; [exact (Hni Hin)|].
      apply list_elem_of_singleton in Hin.
      apply lookup_lt_Some in Hv. rewrite (c_id _ _ Hc) in Hin. lia.
    + exists j, v0. split; [reflexivity|]. split; [|reflexivity].
      apply lookup_app_l_Some. exact Hv.
Qed.

Lemma consistent_calculateHash vs w k g now :
  consistent vs w ->
  Z.of_nat (length vs) <= max_int64 ->
  pool w !! k = Some g ->
  consistent vs
    {| pm := calculateHash (pm w) (g_id g) (g_pwd g) (g_ts g) now;
       pool := delete k (pool w) |}.
Proof.
  intros Hc Hb Hk.
  pose proof (c_le _ _ Hc) as Hle.
  pose proof (lookup_lt_Some _ _ _ Hk) as Hlt.
  assert (Hlen : length (delete k (pool w)) = (length (pool w) - 1)%nat).
  { apply length_delete. eauto. }
  split; simpl; rewrite ?Hlen.
  - apply (c_id _ _ Hc).
  - rewrite (c_pending _ _ Hc), wrap64_small;
      unfold min_int64, max_int64 in *; lia.
  - rewrite (c_requests _ _ Hc), wrap64_small;
      unfold min_int64, max_int64 in *; lia.
  - lia.
  - unfold pool_ids. simpl.
    rewrite list_fmap_delete.
    apply (sublist_NoDup _ (g_id <$> pool w));
      [apply (c_nodup _ _ Hc)|apply sublist_delete].
  - intros g0 Hg0. apply (c_pool _ _ Hc).
    eapply list_elem_of_delete_inv. exact Hg0.
  - intros i x Hx. unfold pool_ids. simpl.
    destruct (decide (g_id g = i)) as [<-|Hne].
    + rewrite lookup_insert_eq in Hx. injection Hx as <-.
      split; [apply pool_delete_id; [apply (c_nodup _ _ Hc)|exact Hk]|].
      destruct (c_pool _ _ Hc g) as (j & Hj & Hv).
      { eapply list_elem_of_lookup_2. exact Hk. }
      exists j, (g_pwd g). auto.
    + rewrite lookup_insert_ne in Hx by exact Hne.
      destruct (c_tasks _ _ Hc i x Hx) as (Hni & Hrest).
      split; [|exact Hrest].
      intros Hin. apply Hni. eapply pool_delete_sub. exact Hin.
Qed.

Lemma consistent_Get vs w i :
  consistent vs w ->
  consistent vs {| pm := snd (Get (pm w) i); pool := pool w |}.
Proof.
  intros Hc. split; simpl; try apply Hc.
  intros j x Hx. apply lookup_delete_Some in Hx as [_ Hx].
  apply (c_tasks _ _ Hc j x Hx).
Qed.

Lemma consistent_Shutdown vs w :
  consistent vs w ->
  consistent vs {| pm := Shutdown (pm w); pool := pool w |}.
Proof. intros Hc. split; simpl; apply Hc. Qed.

Lemma consistent_step vs w c w' r :
  consistent vs w ->
  Z.of_nat (length vs + hashes [c]) <= max_int64 ->
  step w c = Some (w', r) ->
  consistent (vs ++ submitted [c]) w'.
Proof.
  intros Hc Hb Hs. destruct c; simpl in Hs; simpl submitted;
    rewrite ?app_nil_r.
  - injection Hs as <- _.
    refine (proj2 (proj2 (consistent_Hash vs w pwd ts _ _ _ Hc _ eq_refl))).
    unfold hashes in Hb. simpl in Hb. lia.
  - destruct (pool w !! k) as [g|] eqn:Hk; [|discriminate].
    injection Hs as <- _.
    apply consistent_calculateHash; [exact Hc| |exact Hk].
    unfold hashes in Hb. simpl in Hb. lia.
  - injection Hs as <- _. apply (consistent_Get _ _ i Hc).
  - injection Hs as <- _. exact Hc.
  - injection Hs as <- _. exact Hc.
  - injection Hs as <- _. apply consistent_Shutdown, Hc.
  - injection Hs as <- _. exact Hc.
Qed.

Lemma submitted_cons c tr : submitted (c :: tr) = submitted [c] ++ submitted tr.
Proof. destruct c; reflexivity. Qed.

Lemma consistent_run tr : forall vs w w' rs,
  consistent vs w ->
  Z.of_nat (length vs + hashes tr) <= max_int64 ->
  run w tr = Some (w', rs) ->
  consistent (vs ++ submitted tr) w'.
Proof.
  induction tr as [|c tr IH]; intros vs w w' rs Hc Hb Hrun.
  - simpl in Hrun. injection Hrun as <- _. simpl. rewrite app_nil_r. exact Hc.
  - apply run_cons_inv in Hrun as (w1 & r & rs' & Hs & Hr & _).
    rewrite submitted_cons, app_assoc.
    assert (Hh : hashes (c :: tr) = (hashes [c] + hashes tr)%nat).
    { unfold hashes. rewrite submitted_cons, length_app. reflexivity. }
    eapply IH; [| |exact Hr].
    + eapply consistent_step; [exact Hc| |exact Hs]. lia.
    + rewrite length_app. fold (hashes [c]). lia.
Qed.

(** Every state reached from the new manager with fewer than 2^63 [Hash]
    calls is consistent with the values submitted. *)
Lemma consistent_reachable tr w rs :
  run initial tr = Some (w, rs) ->
  Z.of_nat (hashes tr) < 2 ^ 63 ->
  consistent (submitted tr) w.
Proof.
  intros Hrun Hb.
  apply (consistent_run tr [] initial w rs consistent_initial); [|exact Hrun].
  simpl. unfold max_int64. lia.
Qed.

Lemma completions_cons c tr :
  completions (c :: tr) =
  match c with CComplete _ _ => S (completions tr) | _ => completions tr end.
Proof. destruct c; reflexivity. Qed.

(** Goroutines are started by [Hash] and leave the pool by finishing. *)
Lemma pool_length_run tr : forall w w' rs,
  run w tr = Some (w', rs) ->
  (length (pool w') + completions tr = length (pool w) + hashes tr)%nat.
Proof.
  induction tr as [|c tr IH]; intros w w' rs Hrun.
  - simpl in Hrun. injection Hrun as <- _. reflexivity.
  - apply run_cons_inv in Hrun as (w1 & r & rs' & Hs & Hr & _).
    apply IH in Hr. rewrite completions_cons, hashes_cons.
    destruct c; simpl in Hs;
      try (injection Hs as <- _; simpl in Hr; exact Hr).
    + injection Hs as <- _. simpl in Hr. rewrite length_app in Hr.
      simpl in Hr. lia.
    + destruct (pool w !! k) as [g|] eqn:Hk; [|discriminate].
      injection Hs as <- _. simpl in Hr.
      rewrite length_delete in Hr by eauto.
      apply lookup_lt_Some in Hk. lia.
Qed.

(** C8: in every state reached from the new manager by fewer than 2^63
    [Hash] calls and any other calls and completions, the next id is the
    number of pending hashes plus the number of processed requests; the
    pending count is the number of goroutines yet to finish, so it is not
    negative, and the processed count is the number that have finished. *)
Theorem counters_invariant tr w rs :
  run initial tr = Some (w, rs) ->
  Z.of_nat (hashes tr) < 2 ^ 63 ->
  id (pm w) = pendingHashes (pm w) + requests (pm w)
  /\ 0 <= pendingHashes (pm w)
  /\ id (pm w) = Z.of_nat (hashes tr)
  /\ pendingHashes (pm w) = Z.of_nat (length (pool w))
  /\ requests (pm w) = Z.of_nat (completions tr).
Proof.
  intros Hrun Hb.
  pose proof (consistent_reachable tr w rs Hrun Hb) as Hc.
  pose proof (pool_length_run tr initial w rs Hrun) as Hl. simpl in Hl.
  rewrite (c_id _ _ Hc), (c_pending _ _ Hc), (c_requests _ _ Hc).
  fold (hashes tr). repeat split; lia.
Qed.

Lemma counters_invariant_witness :
  id (pm one_done_one_pending) =
    pendingHashes (pm one_done_one_pending) + requests (pm one_done_one_pending)
  /\ 0 <= pendingHashes (pm one_done_one_pending)
  /\ id (pm one_done_one_pending) = 2
  /\ pendingHashes (pm one_done_one_pending) = 1
  /\ requests (pm one_done_one_pending) = 1.
Proof.
  refine (counters_invariant
            [CHash "a" 0; CHash "b" 7; CComplete 0 5000000000; CStats]
            one_done_one_pending
            [RId 0; RId 1; RDone; RStats 1 5000] _ _).
  - vm_compute. reflexivity.
  - vm_compute. reflexivity.
Defined.

(** ** Results *)

(** The [j]-th value submitted was given id [j]. *)
Lemma submissions_run tr : forall vs w w' rs j v,
  consistent vs w ->
  Z.of_nat (length vs + hashes tr) <= max_int64 ->
  run w tr = Some (w', rs) ->
  submitted tr !! j = Some v ->
  (Z.of_nat (length vs + j), v) ∈ submissions tr rs.
Proof.
  induction tr as [|c tr IH]; intros vs w w' rs j v Hc Hb Hrun Hj.
  - discriminate Hj.
  - apply run_cons_inv in Hrun as (w1 & r & rs' & Hs & Hr & ->).
    assert (Hh : hashes (c :: tr) = (hashes [c] + hashes tr)%nat).
    { unfold hashes. rewrite submitted_cons, length_app. reflexivity. }
    pose proof (consistent_step vs w c w1 r Hc ltac:(lia) Hs) as Hc1.
    assert (Hb1 : Z.of_nat (length (vs ++ submitted [c]) + hashes tr)
                  <= max_int64).
    { rewrite length_app. fold (hashes [c]). lia. }
    destruct c; simpl in Hs, Hc1; rewrite ?app_nil_r in Hc1, Hb1;
      try (injection Hs as <- <-; simpl;
           exact (IH _ _ _ _ _ _ Hc1 Hb1 Hr Hj)).
    + injection Hs as <- <-. simpl. rewrite (c_id _ _ Hc).
      destruct j as [|j]; simpl in Hj.
      * injection Hj as ->. rewrite Nat.add_0_r. left.
      * right. pose proof (IH _ _ _ _ _ _ Hc1 Hb1 Hr Hj) as Hin.
        rewrite length_app in Hin. simpl in Hin.
        replace (length vs + S j)%nat with (length vs + 1 + j)%nat by lia.
        exact Hin.
    + destruct (pool w !! k) as [g|] eqn:Hk; [|discriminate].
      injection Hs as <- <-. simpl.
      exact (IH _ _ _ _ _ _ Hc1 Hb1 Hr Hj).
Qed.

Lemma index_Some m i bs : index m i = Some bs <-> m !! i = Some (Some bs).
Proof.
  unfold index. destruct (m !! i) as [[x|]|]; split; intros Hx;
    try discriminate; injection Hx as ->; reflexivity.
Qed.

(** A goroutine that finishes stores the digest of its password under its
    id, where the next [Get] finds it. *)
Lemma complete_then_Get w k g now :
  pool w !! k = Some g ->
  run w [CComplete k now; CGet (g_id g)] =
  Some ({| pm := snd (Get (calculateHash (pm w) (g_id g) (g_pwd g) (g_ts g)
                             now) (g_id g));
           pool := delete k (pool w) |},
        [RDone; RHash (Some (Sha512.sum (bytes_of_string (g_pwd g))))]).
Proof.
  intros Hk. simpl. rewrite Hk. simpl. unfold index.
  rewrite lookup_insert_eq. reflexivity.
Qed.

(** C1: in a state reached from the new manager (fewer than 2^63 [Hash]
    calls), whatever [Get] returns for an id, if not [nil], is the SHA-512
    digest of the value submitted under that id; each pending goroutine
    belongs to a submission, and once it has finished [Get] returns the
    digest of the submitted value; for "angryMonkey" the digest in base64 is
    the string of the unit test. *)
Theorem Get_returns_digest tr w rs :
  run initial tr = Some (w, rs) ->
  Z.of_nat (hashes tr) < 2 ^ 63 ->
  (forall i bs, fst (Get (pm w) i) = Some bs ->
     exists v, (i, v) ∈ submissions tr rs
               /\ bs = Sha512.sum (bytes_of_string v))
  /\ (forall k g now, pool w !! k = Some g ->
        (g_id g, g_pwd g) ∈ submissions tr rs
        /\ exists w',
             run w [CComplete k now; CGet (g_id g)] =
             Some (w', [RDone;
                        RHash (Some (Sha512.sum (bytes_of_string (g_pwd g))))]))
  /\ Base64.EncodeToString (Sha512.sum (bytes_of_string "angryMonkey")) =
     "ZEHhWB65gUlzdVwtDQArEyx+KVLzp/aTaRaPlBzYRIFj6vjFdqEb0Q5B8zVKCZ0vKbZPZklJz0Fd7su2A+gf7Q=="%string.
Proof.
  intros Hrun Hb.
  pose proof (consistent_reachable tr w rs Hrun Hb) as Hc.
  assert (Hsub : forall j v, submitted tr !! j = Some v ->
                             (Z.of_nat j, v) ∈ submissions tr rs).
  { intros j v Hj.
    apply (submissions_run tr [] initial w rs j v consistent_initial);
      [simpl; unfold max_int64; lia|exact Hrun|exact Hj]. }
  split; [|split].
  - intros i bs Hget. simpl in Hget. apply index_Some in Hget.
    destruct (c_tasks _ _ Hc i _ Hget) as (_ & j & v & -> & Hj & Hx).
    injection Hx as ->. exists v. split; [apply Hsub, Hj|reflexivity].
  - intros k g now Hk. split.
    + destruct (c_pool _ _ Hc g) as (j & Hid & Hj).
      { eapply list_elem_of_lookup_2. exact Hk. }
      rewrite Hid. apply Hsub, Hj.
    + eexists. apply complete_then_Get, Hk.
  - exact angryMonkey_digest.
Qed.

Lemma Get_returns_digest_witness :
  exists w',
    run one_pending [CComplete 0 5000000000; CGet 0] =
    Some (w', [RDone;
               RHash (Some (Sha512.sum (bytes_of_string "angryMonkey")))]).
Proof.
  refine (proj2 (proj1 (proj2
    (Get_returns_digest [CHash "angryMonkey" 0] one_pending [RId 0] eq_refl _))
    0%nat (Go 0 "angryMonkey" 0) 5000000000 eq_refl)).
  vm_compute. reflexivity.
Defined.

(** ** Fetching *)

Lemma Get_absent pm0 i : tasks pm0 !! i = None -> Get pm0 i = (None, pm0).
Proof.
  intros Hi. unfold Get, index. rewrite Hi.
  rewrite delete_id by exact Hi. destruct pm0; reflexivity.
Qed.

Lemma Get_Get pm0 i : fst (Get (snd (Get pm0 i)) i) = None.
Proof. simpl. unfold index. rewrite lookup_delete_eq. reflexivity. Qed.

(** Only [Get] removes an entry, and it removes only the one asked for. *)
Lemma tasks_kept w c w' r j :
  step w c = Some (w', r) ->
  c <> CGet j ->
  is_Some (tasks (pm w) !! j) ->
  is_Some (tasks (pm w') !! j).
Proof.
  intros Hs Hne Hj. destruct c; simpl in Hs;
    try (injection Hs as <- _; exact Hj).
  - destruct (pool w !! k) as [g|]; [|discriminate]. injection Hs as <- _.
    simpl. destruct (decide (g_id g = j)) as [->|Hg].
    + rewrite lookup_insert_eq. eauto.
    + rewrite lookup_insert_ne by exact Hg. exact Hj.
  - injection Hs as <- _. simpl.
    rewrite lookup_delete_ne by congruence. exact Hj.
Qed.

Lemma spent_step vs w c w' r h :
  consistent vs w ->
  Z.of_nat (length vs + hashes [c]) <= max_int64 ->
  spent h w ->
  step w c = Some (w', r) ->
  spent h w' /\ (c = CGet h -> r = RHash None).
Proof.
  intros Hc Hb (Hlt & Hnp & Hnt) Hs.
  destruct c; simpl in Hs.
  - injection Hs as <- _. split; [|discriminate].
    unfold spent, pool_ids. simpl. rewrite fmap_app. simpl.
    rewrite (c_id _ _ Hc) in *.
    unfold hashes in Hb. simpl in Hb.
    rewrite wrap64_small by (unfold min_int64, max_int64 in *; lia).
    split; [lia|]. split; [|exact Hnt].
    intros Hin. apply elem_of_app in Hin as [Hin|Hin]; [exact (Hnp Hin)|].
    apply list_elem_of_singleton in Hin. lia.
  - destruct (pool w !! k) as [g|] eqn:Hk; [|discriminate].
    injection Hs as <- _. split; [|discriminate].
    assert (Hne : g_id g <> h).
    { intros <-. apply Hnp. unfold pool_ids. apply list_elem_of_fmap.
      exists g. split; [reflexivity|].
      eapply list_elem_of_lookup_2. exact Hk. }
    unfold spent, pool_ids. simpl. split; [exact Hlt|]. split.
    + intros Hin. apply Hnp. eapply pool_delete_sub. exact Hin.
    + rewrite lookup_insert_ne by exact Hne. exact Hnt.
  - injection Hs as <- <-. split.
    + unfold spent. simpl. split; [exact Hlt|]. split; [exact Hnp|].
      apply lookup_delete_None. right. exact Hnt.
    + intros [= ->]. unfold index. rewrite Hnt. reflexivity.
  - injection Hs as <- _. split; [|discriminate]. repeat split; assumption.
  - injection Hs as <- _. split; [|discriminate]. repeat split; assumption.
  - injection Hs as <- _. split; [|discriminate]. repeat split; assumption.
  - injection Hs as <- _. split; [|discriminate]. repeat split; assumption.
Qed.

Lemma fetched_other h c r tr rs :
  (c = CGet h -> r = RHash None) ->
  fetched h (c :: tr) (r :: rs) = fetched h tr rs.
Proof.
  intros Hr. destruct c; try reflexivity. simpl.
  destruct r as [| |[bs|]| |]; try reflexivity.
  destruct (decide (i = h)) as [->|]; [|reflexivity].
  specialize (Hr eq_refl). discriminate Hr.
Qed.

(** A spent id is not fetched again. *)
Lemma spent_run tr : forall vs w w' rs h,
  consistent vs w ->
  Z.of_nat (length vs + hashes tr) <= max_int64 ->
  spent h w ->
  run w tr = Some (w', rs) ->
  fetched h tr rs = O.
Proof.
  induction tr as [|c tr IH]; intros vs w w' rs h Hc Hb Hsp Hrun.
  - reflexivity.
  - apply run_cons_inv in Hrun as (w1 & r & rs' & Hs & Hr & ->).
    assert (Hh : hashes (c :: tr) = (hashes [c] + hashes tr)%nat).
    { unfold hashes. rewrite submitted_cons, length_app. reflexivity. }
    destruct (spent_step vs w c w1 r h Hc ltac:(lia) Hsp Hs) as [Hsp1 Hnil].
    rewrite fetched_other by exact Hnil.
    eapply (IH (vs ++ submitted [c])); [| |exact Hsp1|exact Hr].
    + eapply consistent_step; [exact Hc| |exact Hs]. lia.
    + rewrite length_app. fold (hashes [c]). lia.
Qed.

Lemma fetched_run tr : forall vs w w' rs h,
  consistent vs w ->
  Z.of_nat (length vs + hashes tr) <= max_int64 ->
  run w tr = Some (w', rs) ->
  (fetched h tr rs <= 1)%nat.
Proof.
  induction tr as [|c tr IH]; intros vs w w' rs h Hc Hb Hrun.
  - simpl. lia.
  - apply run_cons_inv in Hrun as (w1 & r & rs' & Hs & Hr & ->).
    assert (Hh : hashes (c :: tr) = (hashes [c] + hashes tr)%nat).
    { unfold hashes. rewrite submitted_cons, length_app. reflexivity. }
    pose proof (consistent_step vs w c w1 r Hc ltac:(lia) Hs) as Hc1.
    assert (Hb1 : Z.of_nat (length (vs ++ submitted [c]) + hashes tr)
                  <= max_int64).
    { rewrite length_app. fold (hashes [c]). lia. }
    assert (Hcase : (c = CGet h /\ exists bs, r = RHash (Some bs))
                    \/ (c = CGet h -> r = RHash None)).
    { destruct c; try (right; discriminate).
      destruct (decide (i = h)) as [->|Hne]; [|right; congruence].
      simpl in Hs. injection Hs as _ <-.
      destruct (index (tasks (pm w)) h) as [bs|];
        [left; eauto|right; reflexivity]. }
    destruct Hcase as [[-> [bs ->]]|Hnil].
    + simpl in Hs. injection Hs as <- Hi.
      apply index_Some in Hi.
      simpl. rewrite decide_True by reflexivity.
      erewrite (spent_run tr _ _ _ _ h Hc1 Hb1); [lia| |exact Hr].
      unfold spent. simpl.
      destruct (c_tasks _ _ Hc h _ Hi) as [Hnp _].
      pose proof (task_id_bound _ _ _ _ Hc Hi) as Hbd.
      rewrite (c_id _ _ Hc). split; [lia|]. split; [exact Hnp|].
      apply lookup_delete_eq.
    + rewrite fetched_other by exact Hnil.
      exact (IH _ _ _ _ h Hc1 Hb1 Hr).
Qed.

(** C3: along a run from the new manager (fewer than 2^63 [Hash] calls) an
    id is fetched with a result at most once.  In the state reached, [Get]
    returns what is stored under the id and deletes that entry, so that a
    second [Get] returns [nil], as does a [Get] of any id without an entry;
    the ids of pending goroutines and the ids never handed out have no
    entry; and every step other than a [Get] of the id keeps the entry. *)
Theorem Get_at_most_once tr w rs h :
  run initial tr = Some (w, rs) ->
  Z.of_nat (hashes tr) < 2 ^ 63 ->
  (fetched h tr rs <= 1)%nat
  /\ fst (Get (pm w) h) = index (tasks (pm w)) h
  /\ tasks (snd (Get (pm w) h)) = delete h (tasks (pm w))
  /\ fst (Get (snd (Get (pm w) h)) h) = None
  /\ (forall j, tasks (pm w) !! j = None -> fst (Get (pm w) j) = None)
  /\ (forall g, g ∈ pool w -> tasks (pm w) !! g_id g = None)
  /\ (forall j, j < 0 \/ id (pm w) <= j -> tasks (pm w) !! j = None)
  /\ (forall c w' r, step w c = Some (w', r) -> c <> CGet h ->
        is_Some (tasks (pm w) !! h) -> tasks (pm w') !! h = tasks (pm w) !! h).
Proof.
  intros Hrun Hb.
  pose proof (consistent_reachable tr w rs Hrun Hb) as Hc.
  split; [|split; [|split; [|split; [|split; [|split; [|split]]]]]].
  - apply (fetched_run tr [] initial w rs h consistent_initial);
      [simpl; unfold max_int64; lia|exact Hrun].
  - reflexivity.
  - reflexivity.
  - apply Get_Get.
  - intros j Hj. rewrite Get_absent by exact Hj. reflexivity.
  - intros g Hg. destruct (tasks (pm w) !! g_id g) as [x|] eqn:Hx;
      [|reflexivity].
    destruct (c_tasks _ _ Hc _ x Hx) as [Hnp _]. exfalso. apply Hnp.
    unfold pool_ids. apply list_elem_of_fmap. exists g. auto.
  - intros j Hj. destruct (tasks (pm w) !! j) as [x|] eqn:Hx; [|reflexivity].
    pose proof (task_id_bound _ _ _ _ Hc Hx) as Hbd.
    rewrite (c_id _ _ Hc) in Hj. lia.
  - intros c w' r Hs Hne [x Hx]. destruct c; simpl in Hs;
      try (injection Hs as <- _; reflexivity).
    + destruct (pool w !! k) as [g|] eqn:Hk; [|discriminate].
      injection Hs as <- _. simpl. apply lookup_insert_ne.
      intros Heq. destruct (c_tasks _ _ Hc h x Hx) as [Hnp _].
      apply Hnp. unfold pool_ids. apply list_elem_of_fmap.
      exists g. split; [symmetry; exact Heq|].
      eapply list_elem_of_lookup_2. exact Hk.
    + injection Hs as <- _. simpl. apply lookup_delete_ne. congruence.
Qed.

Lemma Get_at_most_once_witness :
  (fetched 0
     [CHash "a" 0; CGet 0; CComplete 0 5000000000; CGet 0; CGet 0]
     [RId 0; RHash None; RDone;
      RHash (Some (Sha512.sum (bytes_of_string "a"))); RHash None] <= 1)%nat.
Proof.
  refine (proj1 (Get_at_most_once
            [CHash "a" 0; CGet 0; CComplete 0 5000000000; CGet 0; CGet 0]
            _ _ 0 _ _)).
  - vm_compute. reflexivity.
  - vm_compute. reflexivity.
Defined.

(** C9: [Get] of an id without an entry returns [nil] and changes nothing,
    neither in the manager nor among the pending goroutines; if the id is
    that of a pending goroutine, the goroutine still finishes afterwards
    and the next [Get] returns the digest of its password. *)
Theorem Get_absent_no_effect w i :
  tasks (pm w) !! i = None ->
  step w (CGet i) = Some (w, RHash None)
  /\ forall k g now, pool w !! k = Some g -> g_id g = i ->
       exists w',
         run w [CGet i; CComplete k now; CGet i] =
         Some (w', [RHash None; RDone;
                    RHash (Some (Sha512.sum (bytes_of_string (g_pwd g))))]).
Proof.
  intros Hi.
  assert (Hs : step w (CGet i) = Some (w, RHash None)).
  { unfold step. rewrite Get_absent by exact Hi. destruct w; reflexivity. }
  split; [exact Hs|].
  intros k g now Hk <-.
  eexists. change (run w (CGet (g_id g) :: [CComplete k now; CGet (g_id g)]))
    with (match step w (CGet (g_id g)) with
          | Some (w1, r) =>
              match run w1 [CComplete k now; CGet (g_id g)] with
              | Some (w2, rs) => Some (w2, r :: rs)
              | None => None
              end
          | None => None
          end).
  rewrite Hs, (complete_then_Get w k g now Hk). reflexivity.
Qed.

Lemma Get_absent_no_effect_witness :
  step one_pending (CGet 0) = Some (one_pending, RHash None).
Proof. exact (proj1 (Get_absent_no_effect one_pending 0 eq_refl)). Defined.

(** ** Stored results are digests *)

Lemma digests_step w c w' r :
  digests w -> step w c = Some (w', r) -> digests w'.
Proof.
  intros Hd Hs. destruct c; simpl in Hs;
    try (injection Hs as <- _; exact Hd).
  - destruct (pool w !! k) as [g|]; [|discriminate]. injection Hs as <- _.
    intros i x Hx. simpl in Hx.
    destruct (decide (g_id g = i)) as [Heq|Hne].
    + subst i. rewrite lookup_insert_eq in Hx. injection Hx as <-.
      eexists. split; [reflexivity|apply sum_length].
    + rewrite lookup_insert_ne in Hx by exact Hne. exact (Hd i x Hx).
  - injection Hs as <- _. intros j x Hx. simpl in Hx.
    apply lookup_delete_Some in Hx as [_ Hx]. exact (Hd j x Hx).
Qed.

Lemma digests_reachable tr w rs :
  run initial tr = Some (w, rs) -> digests w.
Proof.
  apply (run_invariant digests digests_step).
  intros i x Hx. simpl in Hx. rewrite lookup_empty in Hx. discriminate Hx.
Qed.

Lemma Get_nil_iff w i :
  digests w -> fst (Get (pm w) i) = None <-> tasks (pm w) !! i = None.
Proof.
  intros Hd. simpl. unfold index.
  destruct (tasks (pm w) !! i) as [x|] eqn:Hi; [|tauto].
  destruct (Hd i x Hi) as (bs & -> & _). split; discriminate.
Qed.



(** ** Draining *)

(** The flag plays no part in a completion. *)
Lemma calculateHash_Shutdown pm0 i v ts now :
  calculateHash (Shutdown pm0) i v ts now =
  Shutdown (calculateHash pm0 i v ts now).
Proof. reflexivity. Qed.

(** The manager itself hands out an id whether or not it is shutting down:
    refusing is left to the handler. *)
Lemma Hash_ignores_shuttingDown pm0 v ts :
  fst (fst (Hash (Shutdown pm0) v ts)) = id pm0.
Proof. reflexivity. Qed.

(** Every pending goroutine can finish, one after the other; the results
    stored before stay, and each goroutine leaves one. *)
Lemma drain_run now : forall n w,
  length (pool w) = n ->
  exists w',
    run w (repeat (CComplete 0 now) n) = Some (w', repeat RDone n)
    /\ pool w' = []
    /\ (forall j, is_Some (tasks (pm w) !! j) -> is_Some (tasks (pm w') !! j))
    /\ (forall g, g ∈ pool w -> is_Some (tasks (pm w') !! g_id g)).
Proof.
  induction n as [|n IH]; intros w Hn.
  - exists w. destruct (pool w) as [|g l] eqn:Hp; [|discriminate].
    repeat split; auto. intros g Hg. inversion Hg.
  - destruct (pool w) as [|g0 l] eqn:Hp; [discriminate|].
    injection Hn as Hn.
    set (w1 := {| pm := calculateHash (pm w) (g_id g0) (g_pwd g0) (g_ts g0) now;
                  pool := l |}).
    assert (Hs : step w (CComplete 0 now) = Some (w1, RDone)).
    { simpl. rewrite Hp. reflexivity. }
    destruct (IH w1 Hn) as (w' & Hrun & Hnil & Hkeep & Hall).
    exists w'. split; [|split; [exact Hnil|split]].
    + simpl repeat. simpl run. simpl in Hs. rewrite Hs, Hrun. reflexivity.
    + intros j Hj. apply Hkeep.
      eapply tasks_kept; [exact Hs|discriminate|exact Hj].
    + intros g Hg. apply elem_of_cons in Hg as [->|Hg].
      * apply Hkeep. simpl. rewrite lookup_insert_eq. eauto.
      * apply Hall. exact Hg.
Qed.

Lemma submitted_drain now n : submitted (repeat (CComplete 0 now) n) = [].
Proof. induction n as [|n IH]; [reflexivity|exact IH]. Qed.

(** C4: in a state reached after a call of [Shutdown] (fewer than 2^63
    [Hash] calls), the handler of [POST /hash] rejects every request with
    its shutdown error (403) and leaves manager and goroutines as they are;
    each goroutine pending there still finishes as it would otherwise,
    storing its digest and updating the three counters; and all of them can
    finish, after which nothing is pending, every id handed out is counted
    as processed and the digest of each is stored. *)
Theorem shutdown_refuses_new_work tr0 tr w rs :
  run initial (tr0 ++ CShutdown :: tr) = Some (w, rs) ->
  Z.of_nat (hashes (tr0 ++ CShutdown :: tr)) < 2 ^ 63 ->
  IsShuttingDown (pm w) = true
  /\ (forall req ts,
        PasswordManagerHandler.hash w req ts =
        (http.Error "Shutdown is pending - request rejected"
                    http.StatusForbidden, w))
  /\ (forall k g now, pool w !! k = Some g ->
        exists w',
          step w (CComplete k now) = Some (w', RDone)
          /\ tasks (pm w') =
             <[g_id g := Some (Sha512.sum (bytes_of_string (g_pwd g)))]>
               (tasks (pm w))
          /\ requests (pm w') = requests (pm w) + 1
          /\ totalTime (pm w') =
             wrap64 (totalTime (pm w) + time.Sub now (g_ts g))
          /\ pendingHashes (pm w') = pendingHashes (pm w) - 1
          /\ pool w' = delete k (pool w))
  /\ (forall now,
        exists w',
          run w (repeat (CComplete 0 now) (length (pool w))) =
          Some (w', repeat RDone (length (pool w)))
          /\ HasPendingHashes (pm w') = false
          /\ requests (pm w') = id (pm w)
          /\ forall g, g ∈ pool w ->
               tasks (pm w') !! g_id g =
               Some (Some (Sha512.sum (bytes_of_string (g_pwd g))))).
Proof.
  intros Hrun Hb.
  pose proof (consistent_reachable _ w rs Hrun Hb) as Hc.
  assert (Hsd : shuttingDown (pm w) = true).
  { rewrite run_app in Hrun.
    destruct (run initial tr0) as [[w1 rs1]|]; [|discriminate].
    destruct (run w1 (CShutdown :: tr)) as [[w2 rs2]|] eqn:Hrun2;
      [|discriminate].
    injection Hrun as <- _.
    apply run_cons_inv in Hrun2 as (w3 & r & rs' & Hs & Hr & _).
    simpl in Hs. injection Hs as <- _.
    eapply shuttingDown_run; [|exact Hr]. reflexivity. }
  split; [exact Hsd|]. split; [|split].
  - intros req ts.
    unfold PasswordManagerHandler.hash,
      PasswordManagerHandler.isShutdownPending.
    simpl. unfold IsShuttingDown. rewrite Hsd. reflexivity.
  - intros k g now Hk. eexists. split; [simpl; rewrite Hk; reflexivity|].
    pose proof (consistent_calculateHash _ w k g now Hc) as Hc1.
    pose proof (c_le _ _ Hc) as Hle.
    pose proof (lookup_lt_Some _ _ _ Hk) as Hlt.
    simpl. split; [reflexivity|]. split; [|split; [reflexivity|split]].
    + rewrite (c_requests _ _ Hc), wrap64_small;
        unfold min_int64, max_int64, hashes in *; lia.
    + rewrite (c_pending _ _ Hc), wrap64_small;
        unfold min_int64, max_int64, hashes in *; lia.
    + reflexivity.
  - intros now.
    destruct (drain_run now _ w eq_refl) as (w' & Hd & Hnil & _ & Hall).
    exists w'. split; [exact Hd|].
    pose proof (consistent_run _ _ w w' _ Hc
                  ltac:(unfold hashes in *; rewrite submitted_drain;
                        unfold max_int64; simpl; lia) Hd) as Hc'.
    rewrite submitted_drain, app_nil_r in Hc'.
    split; [|split].
    + unfold HasPendingHashes. rewrite (c_pending _ _ Hc'), Hnil. reflexivity.
    + rewrite (c_requests _ _ Hc'), Hnil, (c_id _ _ Hc). simpl. lia.
    + intros g Hg. destruct (Hall g Hg) as [x Hx]. rewrite Hx.
      destruct (c_tasks _ _ Hc' _ x Hx) as (_ & j & v & Hj & Hv & ->).
      destruct (c_pool _ _ Hc g Hg) as (j' & Hj' & Hv').
      assert (j = j') by lia. subst j'. congruence.
Qed.

Lemma shutdown_refuses_new_work_witness :
  PasswordManagerHandler.hash
    {| pm := mkPasswordManager ∅ 1 0 0 1 true; pool := [Go 0 "a" 0] |}
    (http.mkRequest "POST" "/hash" (Some (bytes_of_string "password=b"))) 9
  = (http.mkResponse 403 (String.append "Shutdown is pending - request rejected" http.LF),
     {| pm := mkPasswordManager ∅ 1 0 0 1 true; pool := [Go 0 "a" 0] |}).
Proof.
  refine (proj1 (proj2 (shutdown_refuses_new_work
            [CHash "a" 0] [CStats]
            {| pm := mkPasswordManager ∅ 1 0 0 1 true; pool := [Go 0 "a" 0] |}
            [RId 0; RDone; RStats 0 0] eq_refl _))
          (http.mkRequest "POST" "/hash" (Some (bytes_of_string "password=b")))
          9).
  vm_compute. reflexivity.
Defined.

(** ** What holds beyond the ranges *)

(** The counters agree modulo 2^64 in every reachable state, overflow or
    not. *)
Lemma counters_mod tr w rs :
  run initial tr = Some (w, rs) ->
  id (pm w) = wrap64 (pendingHashes (pm w) + requests (pm w)).
Proof.
  apply (run_invariant
           (fun w => id (pm w) = wrap64 (pendingHashes (pm w) + requests (pm w))));
    [|reflexivity].
  clear. intros w c w' r Hw Hs. destruct c; simpl in Hs;
    try (injection Hs as <- _; exact Hw).
  - injection Hs as <- _. simpl. rewrite Hw, !wrap64_add_l. f_equal. lia.
  - destruct (pool w !! k); [|discriminate]. injection Hs as <- _. simpl.
    rewrite Hw, wrap64_add_l, wrap64_add_r. f_equal. lia.
Qed.

(** The total time is a sum of elapsed times: it is not negative as long as
    the sum stays in the range of a [Duration]. *)
Lemma totalTime_run E tr : forall w w' rs T0,
  timed E w tr ->
  run w tr = Some (w', rs) ->
  0 <= totalTime (pm w) <= T0 ->
  T0 + Z.of_nat (completions tr) * E <= max_int64 ->
  0 <= totalTime (pm w') <= T0 + Z.of_nat (completions tr) * E.
Proof.
  induction tr as [|c tr IH]; intros w w' rs T0 Ht Hrun HT Hb.
  - simpl in Hrun. injection Hrun as <- _.
    change (completions []) with O. lia.
  - apply run_cons_inv in Hrun as (w1 & r & rs' & Hs & Hr & _).
    destruct Ht as [Hnow Ht]. rewrite Hs in Ht.
    rewrite completions_cons in Hb |- *.
    destruct c; simpl in Hs;
      try (injection Hs as <- _; exact (IH _ _ _ T0 Ht Hr HT Hb)).
    destruct (pool w !! k) as [g|] eqn:Hk; [|discriminate].
    injection Hs as <- _.
    rewrite Nat2Z.inj_succ, Z.mul_succ_l in Hb |- *.
    assert (HE : 0 <= E) by lia.
    pose proof (Z.mul_nonneg_nonneg _ _ (Nat2Z.is_nonneg (completions tr)) HE)
      as HX.
    assert (Hsub : time.Sub now (g_ts g) = now - g_ts g).
    { unfold time.Sub, min_int64, max_int64 in *. lia. }
    specialize (IH _ _ _ (T0 + E) Ht Hr).
    simpl in IH. rewrite Hsub in IH.
    rewrite wrap64_small in IH by (unfold min_int64, max_int64 in *; lia).
    specialize (IH ltac:(lia) ltac:(lia)). lia.
Qed.

(** ** The unit tests *)

(** [TestZeroStats] *)
Example TestZeroStats : Stats NewPasswordManager = (0, 0).
Proof. reflexivity. Qed.

(** [TestHappyPath], with the goroutine finishing between two polls. *)
Example TestHappyPath :
  exists w pwdHash,
    run initial [CHash "angryMonkey" 0; CHasPendingHashes; CGet 0;
                 CComplete 0 5000000321; CGet 0; CHasPendingHashes; CGet 0;
                 CStats]
    = Some (w, [RId 0; RBool true; RHash None; RDone; RHash (Some pwdHash);
                RBool false; RHash None; RStats 1 5000])
    /\ Base64.EncodeToString pwdHash =
       "ZEHhWB65gUlzdVwtDQArEyx+KVLzp/aTaRaPlBzYRIFj6vjFdqEb0Q5B8zVKCZ0vKbZPZklJz0Fd7su2A+gf7Q=="%string.
Proof. eexists _, _. split; vm_compute; reflexivity. Qed.

(** * The rest of the handler adapter *)

(** ** strings.Split *)

Lemma Split_nonempty s sep : strings.Split s sep <> [].
Proof.
  destruct s as [|c s]; simpl; [discriminate|].
  destruct (Ascii.eqb c sep); [discriminate|].
  destruct (strings.Split s sep); discriminate.
Qed.

Lemma Split_length s sep :
  length (strings.Split s sep) = S (occurrences s sep).
Proof.
  induction s as [|c s IH]; simpl; [reflexivity|].
  destruct (Ascii.eqb c sep); simpl; [rewrite IH; reflexivity|].
  destruct (strings.Split s sep) as [|x xs]; simpl in *;
    [discriminate IH|exact IH].
Qed.

Lemma Split_concat s sep :
  String.concat (String sep EmptyString) (strings.Split s sep) = s.
Proof.
  induction s as [|c s IH]; simpl; [reflexivity|].
  destruct (Ascii.eqb_spec c sep) as [->|Hne].
  - pose proof (Split_nonempty s sep) as Hn.
    destruct (strings.Split s sep) as [|x xs]; [contradiction|].
    simpl in IH |- *. rewrite IH. reflexivity.
  - pose proof (Split_nonempty s sep) as Hn.
    destruct (strings.Split s sep) as [|x xs]; [contradiction|].
    destruct xs as [|y ys]; simpl in IH |- *; rewrite <- IH; reflexivity.
Qed.

Lemma Split_pieces s sep x :
  In x (strings.Split s sep) -> occurrences x sep = O.
Proof.
  revert x. induction s as [|c s IH]; intros x; simpl.
  - intros [<-|[]]. reflexivity.
  - destruct (Ascii.eqb c sep) eqn:Hc.
    + intros [<-|Hin]; [reflexivity|apply IH, Hin].
    + pose proof (Split_nonempty s sep) as Hn.
      destruct (strings.Split s sep) as [|y ys]; [contradiction|].
      intros [<-|Hin].
      * simpl. rewrite Hc. apply IH. left. reflexivity.
      * apply IH. right. exact Hin.
Qed.

Lemma Split_none s sep : occurrences s sep = O -> strings.Split s sep = [s].
Proof.
  induction s as [|c s IH]; simpl; [reflexivity|].
  destruct (Ascii.eqb c sep); [discriminate|].
  intros H0. rewrite (IH H0). reflexivity.
Qed.

Lemma Split_app a b sep :
  occurrences a sep = O ->
  strings.Split (a ++ String sep b) sep = a :: strings.Split b sep.
Proof.
  induction a as [|c a IH]; simpl.
  - intros _. rewrite Ascii.eqb_refl. reflexivity.
  - destruct (Ascii.eqb c sep); [discriminate|].
    intros H0. rewrite (IH H0). reflexivity.
Qed.

(** X1: [strings.Split] cuts a string at every separator: it returns one
    piece more than there are separators, no piece contains the separator,
    and joining the pieces with the separator gives the string back. *)
Theorem Split_spec s sep :
  length (strings.Split s sep) = S (occurrences s sep)
  /\ (forall x, In x (strings.Split s sep) -> occurrences x sep = O)
  /\ String.concat (String sep EmptyString) (strings.Split s sep) = s.
Proof.
  split; [apply Split_length|]. split; [apply Split_pieces|apply Split_concat].
Qed.

(** ** strconv *)

Lemma digits_acc d : forall acc,
  strconv.digits (NilEmpty.string_of_uint d) (Z.pos acc) =
  Some (Z.pos (Pos.of_uint_acc d acc)).
Proof.
  induction d; intros acc; simpl; try reflexivity;
    rewrite <- IHd; f_equal;
    match goal with
    | |- context [Z.of_nat ?n] =>
        let v := eval vm_compute in (Z.of_nat n) in
        change (Z.of_nat n) with v
    end; lia.
Qed.

Lemma digits_of_uint d :
  strconv.digits (NilEmpty.string_of_uint d) 0 = Some (Z.of_N (Pos.of_uint d)).
Proof.
  induction d; simpl; try reflexivity; try exact IHd;
    apply (digits_acc d).
Qed.


(** The decimal of a positive number is not empty and starts with a digit,
    so [ParseInt] reads it whole. *)
Lemma ParseUint_to_uint p :
  exists c s,
    NilEmpty.string_of_uint (Pos.to_uint p) = String c s
    /\ Ascii.eqb c "-" = false /\ Ascii.eqb c "+" = false
    /\ strconv.ParseUint (String c s) = Some (Z.pos p).
Proof.
  pose proof (DecimalPos.Unsigned.to_uint_nonnil p) as Hnn.
  pose proof (digits_of_uint (Pos.to_uint p)) as Hd.
  rewrite DecimalPos.Unsigned.of_to in Hd. simpl in Hd.
  destruct (Pos.to_uint p) as [|d|d|d|d|d|d|d|d|d|d]; [contradiction| ..];
    simpl NilEmpty.string_of_uint in *;
    eexists _, _; (split; [reflexivity|]);
    (split; [reflexivity|]); (split; [reflexivity|]); exact Hd.
Qed.

Lemma FormatInt_pos p :
  strconv.FormatInt (Z.pos p) = NilEmpty.string_of_uint (Pos.to_uint p).
Proof.
  unfold strconv.FormatInt. simpl.
  pose proof (DecimalPos.Unsigned.to_uint_nonnil p) as Hnn.
  destruct (Pos.to_uint p); [contradiction|reflexivity..].
Qed.

Lemma FormatInt_neg p :
  strconv.FormatInt (Z.neg p) =
  String "-" (NilEmpty.string_of_uint (Pos.to_uint p)).
Proof.
  unfold strconv.FormatInt. simpl.
  pose proof (DecimalPos.Unsigned.to_uint_nonnil p) as Hnn.
  destruct (Pos.to_uint p); [contradiction|reflexivity..].
Qed.

Lemma ParseInt_FormatInt_eq i :
  min_int64 <= i <= max_int64 ->
  strconv.ParseInt (strconv.FormatInt i) = Some i.
Proof.
  unfold min_int64, max_int64. intros Hi. destruct i as [|p|p].
  - reflexivity.
  - rewrite FormatInt_pos.
    destruct (ParseUint_to_uint p) as (c & s & -> & Hm & Hp & Hu).
    unfold strconv.ParseInt. rewrite Hm, Hp. simpl orb. cbv iota.
    rewrite Hu. simpl negb. simpl andb.
    destruct (Z.leb_spec (2 ^ 63) (Z.pos p)); [lia|reflexivity].
  - rewrite FormatInt_neg.
    destruct (ParseUint_to_uint p) as (c & s & -> & Hm & Hp & Hu).
    unfold strconv.ParseInt. simpl Ascii.eqb. simpl orb. cbv iota.
    rewrite Hu. simpl negb. simpl andb.
    destruct (Z.ltb_spec (2 ^ 63) (Z.pos p)); [lia|reflexivity].
Qed.

(** X2: every [int64] printed by [strconv.FormatInt] in base 10 is read
    back by [strconv.ParseInt] as the same number: the id written by
    [POST /hash] is the id [GET /hash/<id>] parses. *)
Theorem ParseInt_FormatInt i :
  min_int64 <= i <= max_int64 ->
  strconv.ParseInt (strconv.FormatInt i) = Some i.
Proof. exact (ParseInt_FormatInt_eq i). Qed.

Lemma ParseInt_FormatInt_witness :
  strconv.ParseInt (strconv.FormatInt (-9223372036854775808)) =
  Some (-9223372036854775808).
Proof.
  apply (ParseInt_FormatInt (-9223372036854775808)).
  unfold min_int64, max_int64. lia.
Defined.



(** The first number out of range is refused, the least one is read. *)
Example ParseInt_edges :
  strconv.ParseInt "9223372036854775808" = None
  /\ strconv.ParseInt "-9223372036854775808" = Some min_int64
  /\ strconv.ParseInt "-9223372036854775809" = None
  /\ strconv.ParseInt "12a" = None.
Proof. repeat split. Qed.

(** ** encoding/base64 *)

Lemma EncodeToString_triple a b c bs :
  String.length (Base64.EncodeToString (a :: b :: c :: bs)) =
  S (S (S (S (String.length (Base64.EncodeToString bs))))).
Proof. reflexivity. Qed.

Lemma EncodeToString_length_3 bs :
  String.length (Base64.EncodeToString bs) = (4 * ((length bs + 2) / 3))%nat
  /\ (forall a, String.length (Base64.EncodeToString (a :: bs))
                = (4 * ((length (a :: bs) + 2) / 3))%nat)
  /\ (forall a b, String.length (Base64.EncodeToString (a :: b :: bs))
                  = (4 * ((length (a :: b :: bs) + 2) / 3))%nat).
Proof.
  induction bs as [|c bs (IH1 & IH2 & IH3)].
  - split; [reflexivity|]. split; intros; reflexivity.
  - split; [apply IH2|]. split; [intros a; apply IH3|].
    intros a b. rewrite EncodeToString_triple, IH1.
    change (length (a :: b :: c :: bs) + 2)%nat
      with (S (S (S (length bs + 2))))%nat.
    replace (S (S (S (length bs + 2)))) with (length bs + 2 + 1 * 3)%nat by lia.
    rewrite Nat.div_add by lia. lia.
Qed.

(** X4: the base64 text of [n] bytes has [4 * ceil(n / 3)] characters,
    padding included. *)
Theorem EncodeToString_length bs :
  String.length (Base64.EncodeToString bs) = (4 * ((length bs + 2) / 3))%nat.
Proof. apply EncodeToString_length_3. Qed.

(** ** POST /hash *)

Lemma hash_post w req ts body :
  shuttingDown (pm w) = false ->
  http.Method req = http.MethodPost ->
  http.Body req = Some body ->
  body <> [] ->
  PasswordManagerHandler.hash w req ts =
  match strings.Split (string_of_list_byte body) "=" with
  | [item0; item1] =>
      if negb (String.eqb item0 "password") || (String.length item1 =? 0)%nat
      then (http.Error "Invalid parameters" http.StatusBadRequest, w)
      else
        let '(i, w') := iHash w item1 ts in
        ({| http.StatusCode := http.StatusAccepted;
            http.Written := strconv.FormatInt i |}, w')
  | _ => (http.Error "Invalid parameters" http.StatusBadRequest, w)
  end.
Proof.
  intros Hsd Hm Hb Hne.
  unfold PasswordManagerHandler.hash, PasswordManagerHandler.isShutdownPending.
  simpl iIsShuttingDown. unfold IsShuttingDown. rewrite Hsd, Hm, Hb.
  destruct body; [contradiction|reflexivity].
Qed.

Lemma hash_accepted_eq w pw ts :
  shuttingDown (pm w) = false ->
  pw <> ""%string ->
  occurrences pw "=" = O ->
  PasswordManagerHandler.hash w (post_hash pw) ts =
  ({| http.StatusCode := http.StatusAccepted;
      http.Written := strconv.FormatInt (id (pm w)) |},
   {| pm := snd (Hash (pm w) pw ts);
      pool := pool w ++ [Go (id (pm w)) pw ts] |}).
Proof.
  intros Hsd Hpw Hocc.
  rewrite (hash_post w (post_hash pw) ts
             (list_byte_of_string ("password=" ++ pw)) Hsd eq_refl eq_refl)
    by discriminate.
  rewrite string_of_list_byte_of_string.
  change ("password=" ++ pw)%string with ("password" ++ String "=" pw)%string.
  rewrite Split_app by reflexivity. rewrite (Split_none pw "=" Hocc).
  destruct pw as [|c pw]; [contradiction|]. reflexivity.
Qed.



(** X6: whatever the request, [POST /hash] either answers 202, and then no
    shutdown was pending, the method was POST and the body was
    [password=pw] with [pw] not empty and free of [=]; or it answers 400,
    403 or 405 and leaves the service as it was.  A password containing
    [=] is thus always refused. *)
Theorem hash_outcomes (w : World) req ts resp w' :
  PasswordManagerHandler.hash w req ts = (resp, w') ->
  (http.StatusCode resp = http.StatusAccepted
   /\ shuttingDown (pm w) = false
   /\ http.Method req = http.MethodPost
   /\ exists pw, pw <> ""%string /\ occurrences pw "=" = O
        /\ http.Body req = Some (list_byte_of_string ("password=" ++ pw)))
  \/ (w' = w
      /\ (http.StatusCode resp = http.StatusBadRequest
          \/ http.StatusCode resp = http.StatusForbidden
          \/ http.StatusCode resp = http.StatusMethodNotAllowed)).
Proof.
  intros Hh.
  destruct (shuttingDown (pm w)) eqn:Hsd.
  { right. unfold PasswordManagerHandler.hash,
      PasswordManagerHandler.isShutdownPending in Hh.
    simpl iIsShuttingDown in Hh. unfold IsShuttingDown in Hh.
    rewrite Hsd in Hh. injection Hh as <- <-. auto. }
  destruct (String.eqb_spec (http.Method req) http.MethodPost) as [Hm|Hm].
  2:{ right. unfold PasswordManagerHandler.hash,
        PasswordManagerHandler.isShutdownPending in Hh.
      simpl iIsShuttingDown in Hh. unfold IsShuttingDown in Hh.
      rewrite Hsd in Hh. apply String.eqb_neq in Hm. rewrite Hm in Hh.
      injection Hh as <- <-. auto. }
  destruct (http.Body req) as [[|b body]|] eqn:Hb.
  1,3: right; unfold PasswordManagerHandler.hash,
         PasswordManagerHandler.isShutdownPending in Hh;
       simpl iIsShuttingDown in Hh; unfold IsShuttingDown in Hh;
       rewrite Hsd, Hm, Hb in Hh; injection Hh as <- <-; auto.
  rewrite (hash_post w req ts (b :: body) Hsd Hm Hb) in Hh by discriminate.
  pose proof (Split_concat (string_of_list_byte (b :: body)) "=") as Hcat.
  pose proof (Split_pieces (string_of_list_byte (b :: body)) "=") as Hpc.
  destruct (strings.Split (string_of_list_byte (b :: body)) "=")
    as [|item0 [|item1 [|item2 items]]];
    try (right; injection Hh as <- <-; auto; fail).
  destruct (String.eqb_spec item0 "password") as [->|Hne];
    [|right; injection Hh as <- <-; auto].
  destruct item1 as [|c item1]; [right; injection Hh as <- <-; auto|].
  left. simpl in Hh. injection Hh as <- _.
  split; [reflexivity|]. split; [reflexivity|]. split; [exact Hm|].
  exists (String c item1). split; [discriminate|].
  split; [apply Hpc; right; left; reflexivity|].
  f_equal. simpl String.concat in Hcat.
  change ("password=" ++ String c item1)%string
    with ("password" ++ "=" ++ String c item1)%string.
  rewrite Hcat. symmetry. apply list_byte_of_string_of_list_byte.
Qed.

Lemma hash_outcomes_witness :
  (http.StatusCode (http.Error "Invalid parameters" http.StatusBadRequest)
   = http.StatusAccepted
   /\ shuttingDown (pm one_pending) = false
   /\ http.Method (post_hash "a=b") = http.MethodPost
   /\ exists pw, pw <> ""%string /\ occurrences pw "=" = O
        /\ http.Body (post_hash "a=b")
           = Some (list_byte_of_string ("password=" ++ pw)))
  \/ (one_pending = one_pending
      /\ (http.StatusCode (http.Error "Invalid parameters" http.StatusBadRequest)
          = http.StatusBadRequest
          \/ http.StatusCode (http.Error "Invalid parameters"
                                         http.StatusBadRequest)
             = http.StatusForbidden
          \/ http.StatusCode (http.Error "Invalid parameters"
                                         http.StatusBadRequest)
             = http.StatusMethodNotAllowed)).
Proof.
  exact (hash_outcomes one_pending (post_hash "a=b") 5
           (http.Error "Invalid parameters" http.StatusBadRequest)
           one_pending eq_refl).
Defined.

(** ** GET /hash/<id> *)

Lemma get_parsed w req ids i :
  shuttingDown (pm w) = false ->
  http.Method req = http.MethodGet ->
  slice_from (http.Path req) 6 = Some ids ->
  strconv.ParseInt ids = Some i ->
  PasswordManagerHandler.get w req =
  Some (match index (tasks (pm w)) i with
        | None => http.Error "Hash not found" http.StatusNotFound
        | Some bs => {| http.StatusCode := http.StatusOK;
                        http.Written := Base64.EncodeToString bs |}
        end,
        {| pm := snd (Get (pm w) i); pool := pool w |}).
Proof.
  intros Hsd Hm Hp Hi.
  unfold PasswordManagerHandler.get, PasswordManagerHandler.isShutdownPending.
  simpl iIsShuttingDown. unfold IsShuttingDown.
  rewrite Hsd, Hm, Hp, Hi. simpl.
  destruct (index (tasks (pm w)) i); reflexivity.
Qed.

Lemma World_Get_absent w i :
  tasks (pm w) !! i = None ->
  {| pm := snd (Get (pm w) i); pool := pool w |} = w.
Proof.
  intros Hi. rewrite Get_absent by exact Hi. destruct w; reflexivity.
Qed.

(** X7: in a state reached from the new manager, [GET /hash/<id>] either
    answers 200, and then the body is the base64 text (88 characters) of the
    digest stored under the parsed id, that entry and nothing else is
    removed, and the same request repeated is answered 404; or it answers
    400, 403, 404 or 405 and leaves the service as it was. *)
Theorem get_outcomes tr w rs req resp w' :
  run initial tr = Some (w, rs) ->
  PasswordManagerHandler.get w req = Some (resp, w') ->
  (http.StatusCode resp = http.StatusOK
   /\ exists ids i bs,
        slice_from (http.Path req) 6 = Some ids
        /\ strconv.ParseInt ids = Some i
        /\ tasks (pm w) !! i = Some (Some bs)
        /\ http.Written resp = Base64.EncodeToString bs
        /\ String.length (http.Written resp) = 88%nat
        /\ w' = {| pm := snd (Get (pm w) i); pool := pool w |}
        /\ PasswordManagerHandler.get w' req =
           Some (http.Error "Hash not found" http.StatusNotFound, w'))
  \/ (w' = w
      /\ (http.StatusCode resp = http.StatusBadRequest
          \/ http.StatusCode resp = http.StatusForbidden
          \/ http.StatusCode resp = http.StatusNotFound
          \/ http.StatusCode resp = http.StatusMethodNotAllowed)).
Proof.
  intros Hrun Hg. pose proof (digests_reachable tr w rs Hrun) as Hd.
  destruct (shuttingDown (pm w)) eqn:Hsd.
  { right. unfold PasswordManagerHandler.get,
      PasswordManagerHandler.isShutdownPending in Hg.
    simpl iIsShuttingDown in Hg. unfold IsShuttingDown in Hg.
    rewrite Hsd in Hg. injection Hg as <- <-. auto. }
  destruct (String.eqb_spec (http.Method req) http.MethodGet) as [Hm|Hm].
  2:{ right. unfold PasswordManagerHandler.get,
        PasswordManagerHandler.isShutdownPending in Hg.
      simpl iIsShuttingDown in Hg. unfold IsShuttingDown in Hg.
      rewrite Hsd in Hg. apply String.eqb_neq in Hm. rewrite Hm in Hg.
      injection Hg as <- <-. auto 6. }
  destruct (slice_from (http.Path req) 6) as [ids|] eqn:Hp.
  2:{ unfold PasswordManagerHandler.get,
        PasswordManagerHandler.isShutdownPending in Hg.
      simpl iIsShuttingDown in Hg. unfold IsShuttingDown in Hg.
      rewrite Hsd, Hm, Hp in Hg. discriminate Hg. }
  destruct (strconv.ParseInt ids) as [i|] eqn:Hi.
  2:{ right. unfold PasswordManagerHandler.get,
        PasswordManagerHandler.isShutdownPending in Hg.
      simpl iIsShuttingDown in Hg. unfold IsShuttingDown in Hg.
      rewrite Hsd, Hm, Hp, Hi in Hg. injection Hg as <- <-. auto. }
  rewrite (get_parsed w req ids i Hsd Hm Hp Hi) in Hg.
  injection Hg as <- <-.
  destruct (index (tasks (pm w)) i) as [bs|] eqn:Hx.
  - left. split; [reflexivity|]. apply index_Some in Hx.
    destruct (Hd i _ Hx) as (bs' & [= <-] & Hlen).
    exists ids, i, bs. repeat split; try assumption.
    + cbn [http.Written].
      rewrite (proj1 (EncodeToString_length_3 bs)), Hlen. reflexivity.
    + refine (eq_trans (get_parsed _ req ids i _ Hm Hp Hi) _); [exact Hsd|].
      simpl. unfold index. rewrite !lookup_delete_eq.
      rewrite delete_delete_eq. reflexivity.
  - right. split; [|auto 6].
    apply World_Get_absent.
    apply (Get_nil_iff w i Hd). exact Hx.
Qed.

Lemma get_outcomes_witness :
  (http.StatusCode (http.Error "Hash not found" http.StatusNotFound)
     = http.StatusOK
   /\ exists ids i bs,
        slice_from (http.Path (get_hash "0")) 6 = Some ids
        /\ strconv.ParseInt ids = Some i
        /\ tasks (pm one_pending) !! i = Some (Some bs)
        /\ http.Written (http.Error "Hash not found" http.StatusNotFound)
           = Base64.EncodeToString bs
        /\ String.length
             (http.Written (http.Error "Hash not found" http.StatusNotFound))
           = 88%nat
        /\ one_pending = {| pm := snd (Get (pm one_pending) i);
                            pool := pool one_pending |}
        /\ PasswordManagerHandler.get one_pending (get_hash "0") =
           Some (http.Error "Hash not found" http.StatusNotFound, one_pending))
  \/ (one_pending = one_pending
      /\ (http.StatusCode (http.Error "Hash not found" http.StatusNotFound)
            = http.StatusBadRequest
          \/ http.StatusCode (http.Error "Hash not found" http.StatusNotFound)
               = http.StatusForbidden
          \/ http.StatusCode (http.Error "Hash not found" http.StatusNotFound)
               = http.StatusNotFound
          \/ http.StatusCode (http.Error "Hash not found" http.StatusNotFound)
               = http.StatusMethodNotAllowed)).
Proof.
  exact (get_outcomes [CHash "angryMonkey" 0] one_pending [RId 0]
           (get_hash "0")
           (http.Error "Hash not found" http.StatusNotFound) one_pending
           eq_refl eq_refl).
Defined.

(** ** Requests while draining *)



(** * More on the bookkeeping *)

Lemma submitted_app tr1 tr2 :
  submitted (tr1 ++ tr2) = submitted tr1 ++ submitted tr2.
Proof. unfold submitted. apply omap_app. Qed.

Lemma hashes_app tr1 tr2 : hashes (tr1 ++ tr2) = (hashes tr1 + hashes tr2)%nat.
Proof. unfold hashes. rewrite submitted_app, length_app. reflexivity. Qed.

Lemma pending_no_entry vs w g :
  consistent vs w -> g ∈ pool w -> tasks (pm w) !! g_id g = None.
Proof.
  intros Hc Hg. destruct (tasks (pm w) !! g_id g) as [x|] eqn:Hx; [|reflexivity].
  destruct (c_tasks _ _ Hc _ x Hx) as [Hnp _]. exfalso. apply Hnp.
  unfold pool_ids. apply list_elem_of_fmap. exists g. auto.
Qed.

(** X9: in a state reached from the new manager (fewer than 2^63 [Hash]
    calls) [HasPendingHashes] is true exactly when some goroutine has not
    finished, that is when fewer goroutines have finished than [Hash] has
    been called. *)
Theorem HasPendingHashes_spec tr w rs :
  run initial tr = Some (w, rs) ->
  Z.of_nat (hashes tr) < 2 ^ 63 ->
  (HasPendingHashes (pm w) = true <-> pool w <> [])
  /\ (HasPendingHashes (pm w) = true <-> (completions tr < hashes tr)%nat).
Proof.
  intros Hrun Hb.
  pose proof (consistent_reachable tr w rs Hrun Hb) as Hc.
  pose proof (pool_length_run tr initial w rs Hrun) as Hl. simpl in Hl.
  unfold HasPendingHashes. rewrite (c_pending _ _ Hc), Z.ltb_lt.
  split.
  - destruct (pool w) as [|g l]; simpl; split; intros H;
      try lia; try discriminate; try contradiction.
  - lia.
Qed.

Lemma HasPendingHashes_spec_witness :
  (HasPendingHashes (pm one_done_one_pending) = true
   <-> pool one_done_one_pending <> [])
  /\ (HasPendingHashes (pm one_done_one_pending) = true
      <-> (completions [CHash "a" 0; CHash "b" 7; CComplete 0 5000000000]
           < hashes [CHash "a" 0; CHash "b" 7; CComplete 0 5000000000])%nat).
Proof.
  refine (HasPendingHashes_spec
            [CHash "a" 0; CHash "b" 7; CComplete 0 5000000000]
            one_done_one_pending [RId 0; RId 1; RDone] _ _).
  - vm_compute. reflexivity.
  - vm_compute. reflexivity.
Defined.

Lemma fetches_cons r rs :
  fetches (r :: rs) =
  match r with RHash (Some _) => S (fetches rs) | _ => fetches rs end.
Proof. destruct r as [| |[bs|]| |]; reflexivity. Qed.

Lemma conservation_run tr : forall vs w w' rs,
  consistent vs w ->
  Z.of_nat (length vs + hashes tr) <= max_int64 ->
  run w tr = Some (w', rs) ->
  (size (tasks (pm w')) + length (pool w') + fetches rs
   = size (tasks (pm w)) + length (pool w) + hashes tr)%nat.
Proof.
  induction tr as [|c tr IH]; intros vs w w' rs Hc Hb Hrun.
  - simpl in Hrun. injection Hrun as <- <-. unfold hashes, fetches. simpl. lia.
  - apply run_cons_inv in Hrun as (w1 & r & rs' & Hs & Hr & ->).
    assert (Hh : hashes (c :: tr) = (hashes [c] + hashes tr)%nat).
    { unfold hashes. rewrite submitted_cons, length_app. reflexivity. }
    pose proof (consistent_step vs w c w1 r Hc ltac:(lia) Hs) as Hc1.
    assert (Hb1 : Z.of_nat (length (vs ++ submitted [c]) + hashes tr)
                  <= max_int64).
    { rewrite length_app. fold (hashes [c]). lia. }
    pose proof (IH _ _ _ _ Hc1 Hb1 Hr) as Hrec.
    rewrite fetches_cons, hashes_cons. clear IH Hc1 Hb1 Hr Hh.
    destruct c; simpl in Hs.
    + injection Hs as <- <-. simpl in Hrec. rewrite length_app in Hrec.
      simpl in Hrec. lia.
    + destruct (pool w !! k) as [g|] eqn:Hk; [|discriminate].
      injection Hs as <- <-. simpl in Hrec.
      rewrite map_size_insert_None in Hrec
        by (eapply pending_no_entry;
            [exact Hc|eapply list_elem_of_lookup_2; exact Hk]).
      rewrite length_delete in Hrec by eauto.
      apply lookup_lt_Some in Hk. lia.
    + injection Hs as <- <-. simpl in Hrec.
      destruct (index (tasks (pm w)) i) as [bs|] eqn:Hi.
      * apply index_Some in Hi.
        rewrite map_size_delete_Some in Hrec by eauto.
        assert (size (tasks (pm w)) <> O).
        { intros H0. apply map_size_empty_inv in H0. rewrite H0 in Hi.
          rewrite lookup_empty in Hi. discriminate Hi. }
        lia.
      * assert (Hn : tasks (pm w) !! i = None).
        { unfold index in Hi.
          destruct (tasks (pm w) !! i) as [x|] eqn:Hx; [|reflexivity].
          destruct (c_tasks _ _ Hc _ x Hx) as (_ & j & v & _ & _ & ->).
          discriminate Hi. }
        rewrite delete_id in Hrec by exact Hn. lia.
    + destruct (Stats (pm w)). injection Hs as <- <-. lia.
    + injection Hs as <- <-. lia.
    + injection Hs as <- <-. simpl in Hrec. lia.
    + injection Hs as <- <-. lia.
Qed.

(** X10: in a run from the new manager (fewer than 2^63 [Hash] calls) every
    id handed out is in exactly one of three places: pending, stored, or
    already fetched.  The stored results are thus those finished and not
    yet fetched; nothing else removes one. *)
Theorem tasks_conservation tr w rs :
  run initial tr = Some (w, rs) ->
  Z.of_nat (hashes tr) < 2 ^ 63 ->
  (size (tasks (pm w)) + length (pool w) + fetches rs = hashes tr)%nat
  /\ (size (tasks (pm w)) + fetches rs = completions tr)%nat.
Proof.
  intros Hrun Hb.
  pose proof (conservation_run tr [] initial w rs consistent_initial
                ltac:(simpl; unfold max_int64; lia) Hrun) as Hcons.
  pose proof (pool_length_run tr initial w rs Hrun) as Hl.
  simpl in Hcons, Hl. rewrite map_size_empty in Hcons. lia.
Qed.

Lemma tasks_conservation_witness :
  (size (tasks (pm one_done_one_pending)) + length (pool one_done_one_pending)
   + fetches [RId 0; RId 1; RDone; RHash None]
   = hashes [CHash "a" 0; CHash "b" 7; CComplete 0 5000000000; CGet 1])%nat
  /\ (size (tasks (pm one_done_one_pending))
      + fetches [RId 0; RId 1; RDone; RHash None]
      = completions [CHash "a" 0; CHash "b" 7; CComplete 0 5000000000;
                     CGet 1])%nat.
Proof.
  refine (tasks_conservation
            [CHash "a" 0; CHash "b" 7; CComplete 0 5000000000; CGet 1]
            one_done_one_pending [RId 0; RId 1; RDone; RHash None] _ _).
  - vm_compute. reflexivity.
  - vm_compute. reflexivity.
Defined.

(** ** Latency *)

Lemma slept_totalTime_run E tr : forall w w' rs lo hi,
  slept E w tr ->
  run w tr = Some (w', rs) ->
  0 <= lo <= totalTime (pm w) ->
  totalTime (pm w) <= hi ->
  hi + Z.of_nat (completions tr) * E <= max_int64 ->
  lo + Z.of_nat (completions tr) * NapTimeSec <= totalTime (pm w')
  /\ totalTime (pm w') <= hi + Z.of_nat (completions tr) * E.
Proof.
  induction tr as [|c tr IH]; intros w w' rs lo hi Ht Hrun Hlo Hhi Hb.
  - simpl in Hrun. injection Hrun as <- _.
    change (completions []) with O. lia.
  - apply run_cons_inv in Hrun as (w1 & r & rs' & Hs & Hr & _).
    destruct Ht as [Hnow Ht]. rewrite Hs in Ht.
    rewrite completions_cons in Hb |- *.
    destruct c; simpl in Hs;
      try (injection Hs as <- _; exact (IH _ _ _ lo hi Ht Hr Hlo Hhi Hb)).
    destruct (pool w !! k) as [g|] eqn:Hk; [|discriminate].
    injection Hs as <- _.
    rewrite Nat2Z.inj_succ, !Z.mul_succ_l in Hb |- *.
    assert (HN : NapTimeSec = 5000000000) by reflexivity.
    assert (HE : 0 <= E) by lia.
    pose proof (Z.mul_nonneg_nonneg _ _ (Nat2Z.is_nonneg (completions tr)) HE)
      as HX.
    assert (Hsub : time.Sub now (g_ts g) = now - g_ts g).
    { unfold time.Sub, min_int64, max_int64 in *. lia. }
    specialize (IH _ _ _ (lo + NapTimeSec) (hi + E) Ht Hr).
    simpl in IH. rewrite Hsub in IH.
    rewrite wrap64_small in IH by (unfold min_int64, max_int64 in *; lia).
    specialize (IH ltac:(lia) ltac:(lia) ltac:(lia)). lia.
Qed.

(** X11: [calculateHash] sleeps [NapTimeSec] before it reads the clock.  If
    every completion of a run from the new manager reads it between
    [NapTimeSec] and [E] after its [Hash] did (the sum of the [E] within a
    [Duration], fewer than 2^63 [Hash] calls), then [Stats] reports the
    number of completions and, once there is one, an average of at least
    5000 and at most [E / 1000000] milliseconds. *)
Theorem Stats_latency E tr w rs :
  run initial tr = Some (w, rs) ->
  Z.of_nat (hashes tr) < 2 ^ 63 ->
  slept E initial tr ->
  Z.of_nat (completions tr) * E <= max_int64 ->
  (0 < completions tr)%nat ->
  fst (Stats (pm w)) = Z.of_nat (completions tr)
  /\ 5000 <= snd (Stats (pm w)) <= E / 1000000.
Proof.
  intros Hrun Hb Hsl HE Hn.
  pose proof (consistent_reachable tr w rs Hrun Hb) as Hc.
  pose proof (pool_length_run tr initial w rs Hrun) as Hl. simpl in Hl.
  assert (Hreq : requests (pm w) = Z.of_nat (completions tr)).
  { rewrite (c_requests _ _ Hc). fold (hashes tr). lia. }
  destruct (slept_totalTime_run E tr initial w rs 0 0 Hsl Hrun
              ltac:(simpl; lia) ltac:(simpl; lia) ltac:(lia)) as [Hlo Hhi].
  assert (HN : NapTimeSec = 5000000000) by reflexivity.
  rewrite HN in Hlo. clear HN.
  rewrite Stats_quot by lia. simpl fst. simpl snd. rewrite Hreq.
  split; [reflexivity|].
  set (n := Z.of_nat (completions tr)) in *.
  assert (Hnpos : 0 < n) by (unfold n; lia).
  rewrite Z.quot_div_nonneg by lia.
  split.
  - apply Z.div_le_lower_bound; lia.
  - rewrite Z.mul_comm, <- Z.div_div by lia.
    apply Z.div_le_mono; [lia|].
    apply Z.div_le_upper_bound; lia.
Qed.

Lemma Stats_latency_witness :
  fst (Stats (pm one_done_one_pending)) = 1
  /\ 5000 <= snd (Stats (pm one_done_one_pending)) <= 6000000000 / 1000000.
Proof.
  refine (Stats_latency 6000000000
            [CHash "a" 0; CHash "b" 7; CComplete 0 5000000000]
            one_done_one_pending [RId 0; RId 1; RDone] _ _ _ _ _).
  - vm_compute. reflexivity.
  - vm_compute. reflexivity.
  - simpl. unfold NapTimeSec, time.Second, time.Millisecond. repeat split; lia.
  - vm_compute. discriminate.
  - vm_compute. lia.
Defined.

(** ** The shutdown loop *)

Lemma shutdown_wait_spec sched : forall vs w w',
  consistent vs w ->
  shuttingDown (pm w) = true ->
  Z.of_nat (length vs + hashes (concat sched)) <= max_int64 ->
  PasswordManagerHandler.shutdown_wait w sched = Some w' ->
  shuttingDown (pm w') = true
  /\ HasPendingHashes (pm w') = false
  /\ exists vs', consistent vs' w'.
Proof.
  induction sched as [|tr sched IH]; intros vs w w' Hc Hsd Hb Hw;
    simpl in Hw; destruct (HasPendingHashes (pm w)) eqn:Hp;
    try discriminate; try (injection Hw as <-; eauto; fail).
  destruct (run w tr) as [[w1 rs1]|] eqn:Hrun; [|discriminate].
  simpl concat in Hb. rewrite hashes_app in Hb.
  apply (IH (vs ++ submitted tr) w1 w'); [| | |exact Hw].
  - eapply consistent_run; [exact Hc| |exact Hrun]. lia.
  - eapply shuttingDown_run; [exact Hsd|exact Hrun].
  - rewrite length_app. fold (hashes tr). lia.
Qed.

(** X12: whatever the rest of the program does before the first poll and
    during the sleeps of the loop, when [shutdown] returns (and the process
    exits) the flag is set and nothing is pending: every goroutine started,
    before the call or during the wait, has finished, and every id handed
    out is counted as processed. *)
Theorem shutdown_returns tr w rs pre sched w' :
  run initial tr = Some (w, rs) ->
  Z.of_nat (hashes tr + hashes pre + hashes (concat sched)) < 2 ^ 63 ->
  PasswordManagerHandler.shutdown w pre sched = Some w' ->
  IsShuttingDown (pm w') = true
  /\ HasPendingHashes (pm w') = false
  /\ pool w' = []
  /\ requests (pm w') = id (pm w').
Proof.
  intros Hrun Hb Hsh.
  pose proof (consistent_reachable tr w rs Hrun ltac:(lia)) as Hc.
  assert (Hcs : consistent (submitted tr) (iShutdown w))
    by exact (consistent_Shutdown _ _ Hc).
  unfold PasswordManagerHandler.shutdown in Hsh.
  destruct (run (iShutdown w) pre) as [[w1 rs1]|] eqn:Hpre; [|discriminate].
  pose proof (consistent_run pre _ _ w1 rs1 Hcs
                ltac:(fold (hashes tr); unfold max_int64; lia) Hpre) as Hc1.
  assert (Hsd1 : shuttingDown (pm w1) = true).
  { eapply shuttingDown_run; [|exact Hpre]. reflexivity. }
  destruct (shutdown_wait_spec sched _ w1 w' Hc1 Hsd1
              ltac:(rewrite length_app; fold (hashes tr) (hashes pre);
                    unfold max_int64; lia) Hsh)
    as (Hsd & Hp & vs' & Hc').
  split; [exact Hsd|]. split; [exact Hp|].
  unfold HasPendingHashes in Hp. rewrite (c_pending _ _ Hc') in Hp.
  apply Z.ltb_ge in Hp.
  assert (Hnil : pool w' = [])
    by (destruct (pool w'); [reflexivity|simpl in Hp; lia]).
  split; [exact Hnil|].
  rewrite (c_requests _ _ Hc'), (c_id _ _ Hc'), Hnil. simpl. lia.
Qed.

Lemma shutdown_returns_witness :
  IsShuttingDown (pm both_done) = true
  /\ HasPendingHashes (pm both_done) = false
  /\ pool both_done = []
  /\ requests (pm both_done) = id (pm both_done).
Proof.
  refine (shutdown_returns
            [CHash "a" 0; CHash "b" 7; CComplete 0 5000000000]
            one_done_one_pending [RId 0; RId 1; RDone]
            [CIsShuttingDown]
            [[CStats]; [CComplete 0 6000000000]; [CHash "c" 9]]
            both_done _ _ _).
  - vm_compute. reflexivity.
  - vm_compute. reflexivity.
  - vm_compute. reflexivity.
Defined.

Lemma shutdown_wait_nil w :
  PasswordManagerHandler.shutdown_wait w [] =
  if HasPendingHashes (pm w) then None else Some w.
Proof. reflexivity. Qed.

Lemma shutdown_wait_cons w tr sched :
  PasswordManagerHandler.shutdown_wait w (tr :: sched) =
  if HasPendingHashes (pm w) then
    match run w tr with
    | Some (w1, _) => PasswordManagerHandler.shutdown_wait w1 sched
    | None => None
    end
  else Some w.
Proof. reflexivity. Qed.

(** X13: [shutdown] does return if the pending goroutines finish: when all
    of them finish during the first sleep the loop ends after it, and with
    nothing pending it ends without sleeping. *)
Theorem shutdown_progress tr w rs now :
  run initial tr = Some (w, rs) ->
  Z.of_nat (hashes tr) < 2 ^ 63 ->
  (exists w',
     PasswordManagerHandler.shutdown w []
       [repeat (CComplete 0 now) (length (pool w))] = Some w')
  /\ (pool w = [] ->
      PasswordManagerHandler.shutdown w [] [] = Some (iShutdown w)).
Proof.
  intros Hrun Hb.
  pose proof (consistent_reachable tr w rs Hrun Hb) as Hc.
  assert (Hcs : consistent (submitted tr) (iShutdown w))
    by exact (consistent_Shutdown _ _ Hc).
  unfold PasswordManagerHandler.shutdown.
  change (run (iShutdown w) []) with (Some (iShutdown w, @nil ret)).
  cbv iota. split.
  - rewrite shutdown_wait_cons.
    destruct (HasPendingHashes (pm (iShutdown w))) eqn:Hp; [|eauto].
    assert (Hlen : length (pool (iShutdown w)) = length (pool w))
      by reflexivity.
    destruct (drain_run now (length (pool w)) (iShutdown w) Hlen)
      as (w1 & Hd & Hnil & _ & _).
    rewrite Hd.
    pose proof (consistent_run _ _ _ w1 _ Hcs
                  ltac:(unfold hashes in *; rewrite submitted_drain;
                        unfold max_int64; simpl; lia) Hd) as Hc1.
    exists w1. rewrite shutdown_wait_nil.
    unfold HasPendingHashes. rewrite (c_pending _ _ Hc1), Hnil. reflexivity.
  - intros Hnil. rewrite shutdown_wait_nil.
    unfold HasPendingHashes. rewrite (c_pending _ _ Hcs). simpl.
    rewrite Hnil. reflexivity.
Qed.

Lemma shutdown_progress_witness :
  exists w',
    PasswordManagerHandler.shutdown one_done_one_pending []
      [repeat (CComplete 0 6000000000) (length (pool one_done_one_pending))]
    = Some w'.
Proof.
  refine (proj1 (shutdown_progress
                   [CHash "a" 0; CHash "b" 7; CComplete 0 5000000000]
                   one_done_one_pending [RId 0; RId 1; RDone] 6000000000 _ _)).
  - vm_compute. reflexivity.
  - vm_compute. reflexivity.
Defined.

(** ** From POST to GET *)

Lemma get_hash_path ids : slice_from (http.Path (get_hash ids)) 6 = Some ids.
Proof. destruct ids; reflexivity. Qed.

(** X14: in a state reached from the new manager with no shutdown pending,
    [POST /hash] with [password=pw] is answered 202 with an id; a
    [GET /hash/<id>] for that id is answered 404, changing nothing, until
    the goroutine has finished, and afterwards 200 with the base64 text of
    the SHA-512 digest of [pw]. *)
Theorem http_round_trip tr w rs pw ts now :
  run initial tr = Some (w, rs) ->
  Z.of_nat (hashes tr) + 1 < 2 ^ 63 ->
  shuttingDown (pm w) = false ->
  pw <> ""%string ->
  occurrences pw "=" = O ->
  exists ids w1 w2 w3,
    PasswordManagerHandler.hash w (post_hash pw) ts =
      ({| http.StatusCode := http.StatusAccepted; http.Written := ids |}, w1)
    /\ PasswordManagerHandler.get w1 (get_hash ids) =
       Some (http.Error "Hash not found" http.StatusNotFound, w1)
    /\ step w1 (CComplete (length (pool w)) now) = Some (w2, RDone)
    /\ PasswordManagerHandler.get w2 (get_hash ids) =
       Some ({| http.StatusCode := http.StatusOK;
                http.Written :=
                  Base64.EncodeToString (Sha512.sum (bytes_of_string pw)) |},
             w3).
Proof.
  intros Hrun Hb Hsd Hpw Hocc.
  pose proof (consistent_reachable tr w rs Hrun ltac:(lia)) as Hc.
  pose proof (c_id _ _ Hc) as Hid. fold (hashes tr) in Hid.
  assert (Hparse : strconv.ParseInt (strconv.FormatInt (id (pm w)))
                   = Some (id (pm w))).
  { apply ParseInt_FormatInt_eq. unfold min_int64, max_int64. lia. }
  assert (Hnone : tasks (pm w) !! id (pm w) = None).
  { destruct (tasks (pm w) !! id (pm w)) as [x|] eqn:Hx; [|reflexivity].
    pose proof (task_id_bound _ _ _ _ Hc Hx) as Hbd.
    fold (hashes tr) in Hbd. lia. }
  set (g := Go (id (pm w)) pw ts).
  set (w1 := {| pm := snd (Hash (pm w) pw ts); pool := pool w ++ [g] |}).
  assert (Hk : pool w1 !! length (pool w) = Some g).
  { unfold w1. simpl. apply list_lookup_middle. reflexivity. }
  exists (strconv.FormatInt (id (pm w))), w1.
  eexists _, _. split; [apply hash_accepted_eq; assumption|]. split; [|split].
  - rewrite (get_parsed w1 (get_hash (strconv.FormatInt (id (pm w))))
               (strconv.FormatInt (id (pm w))) (id (pm w))
               Hsd eq_refl (get_hash_path _) Hparse).
    unfold index. simpl tasks. rewrite Hnone.
    f_equal. f_equal. apply World_Get_absent. exact Hnone.
  - cbv beta iota delta [step]. rewrite Hk. reflexivity.
  - match goal with
    | |- PasswordManagerHandler.get ?w2 _ = _ =>
        refine (eq_trans
                  (get_parsed w2 (get_hash (strconv.FormatInt (id (pm w))))
                     (strconv.FormatInt (id (pm w))) (id (pm w))
                     (Hsd : shuttingDown (pm w2) = false) eq_refl
                     (get_hash_path _) Hparse) _)
    end.
    unfold index. simpl. rewrite lookup_insert_eq. reflexivity.
Qed.

Lemma http_round_trip_witness :
  exists ids w1 w2 w3,
    PasswordManagerHandler.hash initial (post_hash "angryMonkey") 0 =
      ({| http.StatusCode := http.StatusAccepted; http.Written := ids |}, w1)
    /\ PasswordManagerHandler.get w1 (get_hash ids) =
       Some (http.Error "Hash not found" http.StatusNotFound, w1)
    /\ step w1 (CComplete (length (pool initial)) 5000000000)
       = Some (w2, RDone)
    /\ PasswordManagerHandler.get w2 (get_hash ids) =
       Some ({| http.StatusCode := http.StatusOK;
                http.Written :=
                  Base64.EncodeToString
                    (Sha512.sum (bytes_of_string "angryMonkey")) |},
             w3).
Proof.
  refine (http_round_trip [] initial [] "angryMonkey" 0 5000000000
            eq_refl _ eq_refl _ eq_refl).
  - vm_compute. reflexivity.
  - discriminate.
Defined.

(** ** The statistics only grow *)

Lemma timed_totalTime_mono E tr : forall w w' rs hi,
  timed E w tr ->
  run w tr = Some (w', rs) ->
  0 <= totalTime (pm w) <= hi ->
  hi + Z.of_nat (completions tr) * E <= max_int64 ->
  totalTime (pm w) <= totalTime (pm w').
Proof.
  induction tr as [|c tr IH]; intros w w' rs hi Ht Hrun HT Hb.
  - simpl in Hrun. injection Hrun as <- _. lia.
  - apply run_cons_inv in Hrun as (w1 & r & rs' & Hs & Hr & _).
    destruct Ht as [Hnow Ht]. rewrite Hs in Ht.
    rewrite completions_cons in Hb.
    destruct c; simpl in Hs;
      try (injection Hs as <- _; exact (IH _ _ _ hi Ht Hr HT Hb)).
    destruct (pool w !! k) as [g|] eqn:Hk; [|discriminate].
    injection Hs as <- _.
    rewrite Nat2Z.inj_succ, Z.mul_succ_l in Hb.
    assert (HE : 0 <= E) by lia.
    pose proof (Z.mul_nonneg_nonneg _ _ (Nat2Z.is_nonneg (completions tr)) HE)
      as HX.
    assert (Hsub : time.Sub now (g_ts g) = now - g_ts g).
    { unfold time.Sub, min_int64, max_int64 in *. lia. }
    specialize (IH _ _ _ (hi + E) Ht Hr).
    simpl in IH. rewrite Hsub in IH.
    rewrite wrap64_small in IH by (unfold min_int64, max_int64 in *; lia).
    specialize (IH ltac:(lia) ltac:(lia)). lia.
Qed.

(** X15: the two statistics never go back.  Between a state reached from
    the new manager and any later one (fewer than 2^63 [Hash] calls, every
    completion reading the clock between 0 and [E] after its [Hash], the
    sum of the [E] within a [Duration]) the number of processed requests
    grows by the number of goroutines that finished in between, and the
    total time does not decrease. *)
Theorem Stats_monotone E tr1 tr2 w1 rs1 w2 rs2 :
  run initial tr1 = Some (w1, rs1) ->
  run w1 tr2 = Some (w2, rs2) ->
  Z.of_nat (hashes tr1 + hashes tr2) < 2 ^ 63 ->
  timed E initial tr1 ->
  timed E w1 tr2 ->
  Z.of_nat (completions tr1 + completions tr2) * E <= max_int64 ->
  fst (Stats (pm w2)) = fst (Stats (pm w1)) + Z.of_nat (completions tr2)
  /\ totalTime (pm w1) <= totalTime (pm w2).
Proof.
  intros Hrun1 Hrun2 Hb Ht1 Ht2 HE.
  pose proof (consistent_reachable tr1 w1 rs1 Hrun1 ltac:(lia)) as Hc1.
  pose proof (consistent_run tr2 _ w1 w2 rs2 Hc1
                ltac:(fold (hashes tr1); unfold max_int64; lia) Hrun2) as Hc2.
  pose proof (pool_length_run tr1 initial w1 rs1 Hrun1) as Hl1.
  pose proof (pool_length_run tr2 w1 w2 rs2 Hrun2) as Hl2.
  simpl in Hl1. split.
  - simpl. rewrite (c_requests _ _ Hc2), (c_requests _ _ Hc1), length_app.
    fold (hashes tr1) (hashes tr2). lia.
  - assert (HEn : completions tr1 = O \/ 0 <= E).
    { destruct tr1 as [|c tr1]; [left; reflexivity|].
      destruct (completions (c :: tr1)) eqn:Hn; [left; reflexivity|right].
      rewrite Nat2Z.inj_add, Nat2Z.inj_succ in HE.
      destruct (Z.le_gt_cases 0 E) as [|Hneg]; [assumption|].
      exfalso. clear - Ht1 Hrun1 Hn Hneg.
      revert Ht1 Hrun1 Hn. generalize (c :: tr1) as tr, initial as w, rs1 as rs,
        n as m. clear c tr1.
      induction tr as [|c tr IH]; intros w rs m Ht Hrun Hn; [discriminate|].
      apply run_cons_inv in Hrun as (w0 & r & rs' & Hs & Hr & _).
      destruct Ht as [Hnow Ht]. rewrite Hs in Ht.
      rewrite completions_cons in Hn.
      destruct c; try (exact (IH _ _ _ Ht Hr Hn)).
      simpl in Hs. destruct (pool w !! k); [lia|discriminate]. }
    assert (Hbound : 0 <= totalTime (pm w1)
                     <= 0 + Z.of_nat (completions tr1) * E).
    { destruct HEn as [H0|H0].
      - apply (totalTime_run E tr1 initial w1 rs1 0 Ht1 Hrun1);
          [simpl; lia|]. rewrite H0. simpl. unfold max_int64. lia.
      - apply (totalTime_run E tr1 initial w1 rs1 0 Ht1 Hrun1); [simpl; lia|].
        pose proof (Z.mul_nonneg_nonneg _ _
                      (Nat2Z.is_nonneg (completions tr2)) H0).
        rewrite Nat2Z.inj_add in HE. lia. }
    apply (timed_totalTime_mono E tr2 w1 w2 rs2
             (0 + Z.of_nat (completions tr1) * E) Ht2 Hrun2 Hbound).
    rewrite Nat2Z.inj_add in HE. lia.
Qed.

Lemma Stats_monotone_witness :
  fst (Stats (pm both_done)) = fst (Stats (pm one_done_one_pending)) + Z.of_nat 1
  /\ totalTime (pm one_done_one_pending) <= totalTime (pm both_done).
Proof.
  refine (Stats_monotone 6000000000
            [CHash "a" 0; CHash "b" 7; CComplete 0 5000000000]
            [CShutdown; CComplete 0 6000000000]
            one_done_one_pending [RId 0; RId 1; RDone]
            both_done [RDone; RDone] _ _ _ _ _ _).
  - vm_compute. reflexivity.
  - vm_compute. reflexivity.
  - vm_compute. reflexivity.
  - simpl. repeat split; lia.
  - simpl. repeat split; lia.
  - vm_compute. discriminate.
Defined.
